(** * 3D gradient visualizer: a shallow embedding of [main.js]

    The development follows the layout of [main.js]: the function catalog
    [FUNCTIONS], the utilities ([randomInt], [randomPoint],
    [evaluateExpression], [compareAnswers]), the plotting data
    ([generateSurfaceData], [generateGradientArrows]) and the question
    management ([generateNewQuestion], [checkAnswer]) over the global
    [STATE].

    Numbers.  A JavaScript number is an IEEE 754 binary64 value; Rocq's
    primitive [float] is the same format, so the executable model of the
    arithmetic is on [float].  The catalog, the sampler and the arrow are
    written once over an interface of the operations they use
    ([JsNumber]) and read at two instances: [float], the numbers the
    program computes with, and [R], the real numbers that the calculus
    statements speak about. *)

From Stdlib Require Import Floats.
From Stdlib Require Import ZArith Reals Lra Lia List String Ascii Bool.
Import ListNotations.


(** ** Numbers *)

(** The operations of a JavaScript number that [main.js] uses.  [num_dec m k]
    is the decimal literal with digits [m] and [k] digits after the point
    (so [0.3] is [num_dec 3 1]); [num_of_Z] is an integer-valued number. *)
Class JsNumber (T : Type) : Type := {
  num_of_Z : Z -> T;
  num_dec : Z -> nat -> T;
  num_add : T -> T -> T;
  num_sub : T -> T -> T;
  num_mul : T -> T -> T;
  num_div : T -> T -> T;
  num_neg : T -> T;
  num_ltb : T -> T -> bool;
  num_leb : T -> T -> bool;
  Math_abs : T -> T;
  Math_sqrt : T -> T;
  Math_exp : T -> T;
  Math_sin : T -> T;
  Math_cos : T -> T;
  Math_tan : T -> T
}.

Declare Scope js_scope.
Delimit Scope js_scope with js.
Infix "+" := num_add : js_scope.
Infix "-" := num_sub : js_scope.
Infix "*" := num_mul : js_scope.
Infix "/" := num_div : js_scope.
Notation "- x" := (num_neg x) : js_scope.
Infix "<?" := num_ltb : js_scope.
Infix "<=?" := num_leb : js_scope.

(** *** Binary64

    [Math.sqrt] and [Math.abs] are exact IEEE operations.  ECMAScript leaves
    [Math.exp], [Math.sin], [Math.cos], [Math.tan] and the operator [**]
    implementation-approximated, so the engine supplies them.  It also
    says which names the global scope binds, by itself or by the page:
    reading any other name is a [ReferenceError]. *)
Class MathEngine : Type := {
  engine_pow : float -> float -> float;
  engine_exp : float -> float;
  engine_sin : float -> float;
  engine_cos : float -> float;
  engine_tan : float -> float;
  engine_binds : string -> bool
}.

(** An integer as a binary64 number; exact for [|z| < 2^53]. *)
Definition float_of_Z (z : Z) : float :=
  match z with
  | Z0 => 0%float
  | Zpos _ => PrimFloat.of_uint63 (Uint63.of_Z z)
  | Zneg p => PrimFloat.opp (PrimFloat.of_uint63 (Uint63.of_Z (Zpos p)))
  end.

(** A decimal literal [m / 10^k]: one correctly rounded division, of exact
    operands when [|m| < 2^53] and [k <= 18]. *)
Definition float_of_dec (m : Z) (k : nat) : float :=
  PrimFloat.div (float_of_Z m) (float_of_Z (10 ^ Z.of_nat k)).

#[export] Instance float_JsNumber `{MathEngine} : JsNumber float := {|
  num_of_Z := float_of_Z;
  num_dec := float_of_dec;
  num_add := PrimFloat.add;
  num_sub := PrimFloat.sub;
  num_mul := PrimFloat.mul;
  num_div := PrimFloat.div;
  num_neg := PrimFloat.opp;
  num_ltb := PrimFloat.ltb;
  num_leb := PrimFloat.leb;
  Math_abs := PrimFloat.abs;
  Math_sqrt := PrimFloat.sqrt;
  Math_exp := engine_exp;
  Math_sin := engine_sin;
  Math_cos := engine_cos;
  Math_tan := engine_tan
|}.

(** *** Real numbers *)

Definition Rltb (x y : R) : bool := if Rlt_dec x y then true else false.
Definition Rleb (x y : R) : bool := if Rle_dec x y then true else false.

#[export] Instance R_JsNumber : JsNumber R := {|
  num_of_Z := IZR;
  num_dec := fun m k => (IZR m / 10 ^ k)%R;
  num_add := Rplus;
  num_sub := Rminus;
  num_mul := Rmult;
  num_div := Rdiv;
  num_neg := Ropp;
  num_ltb := Rltb;
  num_leb := Rleb;
  Math_abs := Rabs;
  Math_sqrt := sqrt;
  Math_exp := exp;
  Math_sin := sin;
  Math_cos := cos;
  Math_tan := tan
|}.

(** ** Integers as text

    The template literal [`${n}`] of an integer-valued number. *)

Definition digit_char (d : Z) : ascii := ascii_of_nat (48 + Z.to_nat d).

Fixpoint show_pos_fuel (fuel : nat) (n : Z) (acc : string) : string :=
  match fuel with
  | O => acc
  | S fuel' =>
      let acc' := String (digit_char (n mod 10)) acc in
      if (n <? 10)%Z then acc' else show_pos_fuel fuel' (n / 10) acc'
  end.

Definition show_Z (n : Z) : string :=
  match n with
  | Z0 => "0"
  | Zpos _ => show_pos_fuel (S (Z.to_nat (Z.log2 n))) n EmptyString
  | Zneg p => String "-" (show_pos_fuel (S (Z.to_nat (Z.log2 (Zpos p)))) (Zpos p) EmptyString)
  end.

(** ** The random source

    [Math.random()] returns a binary64 number in [0, 1).  The source is the
    sequence of values the next calls will return; each call consumes one.
    What is computed from a draw is computed as the program does, in
    binary64.  A computation that asks for more draws than the sequence
    holds has no result. *)

Definition Rand (A : Type) : Type := list float -> option (A * list float).

Definition ret {A} (a : A) : Rand A := fun draws => Some (a, draws).

Definition bind {A B} (m : Rand A) (k : A -> Rand B) : Rand B :=
  fun draws =>
    match m draws with
    | Some (a, rest) => k a rest
    | None => None
    end.

Notation "x <- m ;; k" := (bind m (fun x => k))
  (at level 61, m at next level, right associativity).

(** [Math.random()]. *)
Definition Math_random : Rand float :=
  fun draws =>
    match draws with
    | [] => None
    | r :: rest => Some (r, rest)
    end.

(** [Math.floor].  A finite number is [m * 2^e] with [m] below [2^53]: it is
    whole already when [e] is not negative, and otherwise the mantissa is
    divided by [2^-e], rounding down.  Zeros, infinities and [NaN] are
    returned as they are. *)
Definition Math_floor (x : float) : float :=
  match Prim2SF x with
  | S754_finite s m e =>
      if (0 <=? e)%Z then x
      else float_of_Z (cond_Zopp s (Zpos m) / 2 ^ (- e))
  | _ => x
  end.

(** The integer that a whole number is.  (Of another finite number it is
    the integer part, rounded down, and 0 of one that is not finite.) *)
Definition whole (num : float) : Z :=
  match Prim2SF num with
  | S754_finite s m e => Z.shiftl (cond_Zopp s (Zpos m)) e
  | _ => 0%Z
  end.

(** [Math.floor(Math.random() * (max - min + 1)) + min] at the draw [r]. *)
Definition scale_draw (min max : Z) (r : float) : float :=
  (Math_floor (r * (float_of_Z max - float_of_Z min + 1)) + float_of_Z min)%float.

(** [num === exclude]; the default [null] is equal to no number. *)
Definition is_excluded (exclude : option Z) (num : float) : bool :=
  match exclude with
  | Some v => PrimFloat.eqb num (float_of_Z v)
  | None => false
  end.

(** The loop [while (num === exclude) num = ...]. *)
Fixpoint resample (min max : Z) (exclude : option Z) (num : float) (draws : list float)
  : option (float * list float) :=
  if is_excluded exclude num then
    match draws with
    | [] => None
    | r :: rest => resample min max exclude (scale_draw min max r) rest
    end
  else Some (num, draws).

(** [randomInt] at whole arguments, as in every call of the program.  The
    number it returns is whole and is given as an integer. *)
Definition randomInt (min max : Z) (exclude : option Z) : Rand Z :=
  fun draws =>
    match draws with
    | [] => None
    | r :: rest =>
        match resample min max exclude (scale_draw min max r) rest with
        | Some (num, rest') => Some (whole num, rest')
        | None => None
        end
    end.

Record Point : Type := { px : Z; py : Z }.

Definition randomPoint : Rand Point :=
  x <- randomInt (-3) 3 None ;;
  y <- randomInt (-3) 3 None ;;
  ret {| px := x; py := y |}.

(** ** Function definitions: [FUNCTIONS]

    An instance is the object a family's [generate] returns: the
    coefficients as own data properties (in insertion order) and the five
    closures over them.  The arithmetic keeps JavaScript's grouping:
    [a*x*x] is [(a*x)*x], [-(x*x + y*y) / c] negates before dividing and
    [-2*b*y] is [((-2)*b)*y]. *)

Inductive FunctionKey : Type := quadratic | exponential | sinusoidal | saddle.

Section Catalog.
Context {T : Type} `{JsNumber T}.
Local Open Scope js_scope.
Local Open Scope string_scope.

Record FunctionInstance : Type := {
  coefficients : list (string * Z);
  evaluate : T -> T -> T;
  partialX : T -> T -> string;
  partialY : T -> T -> string;
  partialXValue : T -> T -> T;
  partialYValue : T -> T -> T
}.

Record FunctionDef : Type := {
  name : string;
  template : string;
  generate : Rand FunctionInstance
}.

Local Abbreviation n := num_of_Z.

Definition quadratic_instance (a b c d e : Z) : FunctionInstance := {|
  coefficients := [("a", a); ("b", b); ("c", c); ("d", d); ("e", e)];
  evaluate := fun x y =>
    n a * x * x + n b * x * y + n c * y * y + n d * x + n e * y;
  partialX := fun _ _ =>
    show_Z (2 * a) ++ "*x + " ++ show_Z b ++ "*y + " ++ show_Z d;
  partialY := fun _ _ =>
    show_Z b ++ "*x + " ++ show_Z (2 * c) ++ "*y + " ++ show_Z e;
  partialXValue := fun x y => n 2 * n a * x + n b * y + n d;
  partialYValue := fun x y => n b * x + n 2 * n c * y + n e
|}.

Definition exponential_instance (a c d : Z) : FunctionInstance := {|
  coefficients := [("a", a); ("c", c); ("d", d)];
  evaluate := fun x y =>
    n a * Math_exp ((- (x * x + y * y)) / n c) + n d;
  partialX := fun _ _ =>
    show_Z a ++ " * e^(-(x²+y²)/" ++ show_Z c ++ ") * (-2*x/" ++ show_Z c ++ ")";
  partialY := fun _ _ =>
    show_Z a ++ " * e^(-(x²+y²)/" ++ show_Z c ++ ") * (-2*y/" ++ show_Z c ++ ")";
  partialXValue := fun x y =>
    n a * Math_exp ((- (x * x + y * y)) / n c) * ((- n 2) * x / n c);
  partialYValue := fun x y =>
    n a * Math_exp ((- (x * x + y * y)) / n c) * ((- n 2) * y / n c)
|}.

Definition sinusoidal_instance (a b c : Z) : FunctionInstance := {|
  coefficients := [("a", a); ("b", b); ("c", c)];
  evaluate := fun x y => n a * Math_sin x + n b * Math_cos y + n c;
  partialX := fun _ _ => show_Z a ++ "*cos(x)";
  partialY := fun _ _ => show_Z (- b) ++ "*sin(y)";
  partialXValue := fun x y => n a * Math_cos x;
  partialYValue := fun x y => (- n b) * Math_sin y
|}.

Definition saddle_instance (a b : Z) : FunctionInstance := {|
  coefficients := [("a", a); ("b", b)];
  evaluate := fun x y => n a * x * x - n b * y * y;
  partialX := fun _ _ => show_Z (2 * a) ++ "*x";
  partialY := fun _ _ => show_Z (-2 * b) ++ "*y";
  partialXValue := fun x y => n 2 * n a * x;
  partialYValue := fun x y => (- n 2) * n b * y
|}.

Definition FUNCTIONS (key : FunctionKey) : FunctionDef :=
  match key with
  | quadratic => {|
      name := "Quadratic";
      template := "f(x,y) = {a}x² + {b}xy + {c}y² + {d}x + {e}y";
      generate :=
        a <- randomInt (-3) 3 (Some 0%Z) ;;
        b <- randomInt (-3) 3 (Some 0%Z) ;;
        c <- randomInt (-3) 3 (Some 0%Z) ;;
        d <- randomInt (-2) 2 (Some 0%Z) ;;
        e <- randomInt (-2) 2 (Some 0%Z) ;;
        ret (quadratic_instance a b c d e) |}
  | exponential => {|
      name := "Exponential";
      template := "f(x,y) = {a}e^(-(x²+y²)/{c}) + {d}";
      generate :=
        a <- randomInt 1 3 None ;;
        c <- randomInt 1 3 None ;;
        d <- randomInt (-2) 2 (Some 0%Z) ;;
        ret (exponential_instance a c d) |}
  | sinusoidal => {|
      name := "Sinusoidal";
      template := "f(x,y) = {a}·sin(x) + {b}·cos(y) + {c}";
      generate :=
        a <- randomInt 1 3 None ;;
        b <- randomInt 1 3 None ;;
        c <- randomInt (-2) 2 (Some 0%Z) ;;
        ret (sinusoidal_instance a b c) |}
  | saddle => {|
      name := "Saddle Surface";
      template := "f(x,y) = {a}x² - {b}y²";
      generate :=
        a <- randomInt 1 3 None ;;
        b <- randomInt 1 3 None ;;
        ret (saddle_instance a b) |}
  end.

End Catalog.

Arguments FunctionInstance T : clear implicits.
Arguments FunctionDef T : clear implicits.

(** ** Text replacement

    [s.replace(/pat/g, rep)] for a pattern that is a literal, non-empty text
    and a replacement without [$]: the matches are found left to right,
    do not overlap, and the replacement is not scanned again.  [skip] counts
    the characters of a match that are still to be dropped. *)

Fixpoint replace_from (pat rep : string) (skip : nat) (s : string) : string :=
  match s with
  | EmptyString => EmptyString
  | String c s' =>
      match skip with
      | S k => replace_from pat rep k s'
      | O =>
          if String.prefix pat s
          then (rep ++ replace_from pat rep (String.length pat - 1) s')%string
          else String c (replace_from pat rep 0 s')
      end
  end.

Definition replace_all (pat rep s : string) : string := replace_from pat rep 0 s.

(** [String(Math.PI)] and [String(Math.E)]. *)
Definition Math_PI_text : string := "3.141592653589793".
Definition Math_E_text : string := "2.718281828459045".

(** The chain of replacements of [evaluateExpression], in the order of the
    source: first the steps up to [sqrt], then [exp] and [abs]. *)
Definition substitute_up_to_sqrt (expr : string) (x y : Z) : string :=
  let r := replace_all "x" ("(" ++ show_Z x ++ ")") expr in
  let r := replace_all "y" ("(" ++ show_Z y ++ ")") r in
  let r := replace_all "π" Math_PI_text r in
  let r := replace_all "e" Math_E_text r in
  let r := replace_all "^" "**" r in
  let r := replace_all "sin" "Math.sin" r in
  let r := replace_all "cos" "Math.cos" r in
  let r := replace_all "tan" "Math.tan" r in
  replace_all "sqrt" "Math.sqrt" r.

Definition substitute (expr : string) (x y : Z) : string :=
  let r := substitute_up_to_sqrt expr x y in
  let r := replace_all "exp" "Math.exp" r in
  replace_all "abs" "Math.abs" r.

(** The character [c] occurs in [s]. *)
Fixpoint occurs (c : ascii) (s : string) : bool :=
  match s with
  | EmptyString => false
  | String c' s' => Ascii.eqb c c' || occurs c s'
  end.

(** ** The engine behind [Function(...)()]

    [evaluateExpression] hands the substituted text to the JavaScript
    engine.  The model covers the arithmetic fragment of the language:
    decimal literals, the operators [+ - * / **], parentheses, calls, the
    six [Math] functions the substitution introduces and names made of
    letters.  A text with anything else is [Unmodelled]: the model says
    nothing about it.  Inside the fragment the outcome is the engine's: a
    value, or a thrown [SyntaxError], [TypeError] or [ReferenceError]. *)

Inductive js_error : Type := JsSyntaxError | JsTypeError | JsReferenceError.

Inductive completion (A : Type) : Type :=
| Normal (a : A)
| Throw (err : js_error)
| Unmodelled.

Arguments Normal {A} a.
Arguments Throw {A} err.
Arguments Unmodelled {A}.

Definition and_then {A B} (m : completion A) (k : A -> completion B) : completion B :=
  match m with
  | Normal a => k a
  | Throw err => Throw err
  | Unmodelled => Unmodelled
  end.

Notation "x <~ m ;; k" := (and_then m (fun x => k))
  (at level 61, m at next level, right associativity).

Inductive MathFn : Type := Fsin | Fcos | Ftan | Fsqrt | Fexp | Fabs.

Inductive token : Type :=
| TNum (v : float)
| TPlus | TMinus | TStar | TSlash | TPow | TLParen | TRParen
| TMath (f : MathFn)
| TIdent (name : string).

(** *** Tokens *)

Definition is_digit (c : ascii) : bool :=
  let k := nat_of_ascii c in (48 <=? k)%nat && (k <=? 57)%nat.

Definition is_letter (c : ascii) : bool :=
  let k := nat_of_ascii c in
  ((65 <=? k)%nat && (k <=? 90)%nat) || ((97 <=? k)%nat && (k <=? 122)%nat).

Definition digit_value (c : ascii) : Z := Z.of_nat (nat_of_ascii c - 48).

(** What may follow a literal or a name inside the fragment: the end of the
    text, a space, an operator or a parenthesis. *)
Definition is_delimiter (c : ascii) : bool :=
  existsb (Ascii.eqb c) [" "; "+"; "-"; "*"; "/"; "("; ")"]%char.

Definition ends_token (s : string) : bool :=
  match s with
  | EmptyString => true
  | String c _ => is_delimiter c
  end.

Definition starts_with (c : ascii) (s : string) : bool :=
  match s with
  | EmptyString => false
  | String c' _ => Ascii.eqb c c'
  end.

(** The letters at the head of [s]. *)
Fixpoint take_letters (s : string) : string :=
  match s with
  | EmptyString => EmptyString
  | String c s' => if is_letter c then String c (take_letters s') else EmptyString
  end.

(** The words made of letters that are no plain names: the reserved words
    of the language and of strict code, and [arguments] and [eval], which
    the function body itself binds.  A text with one of them is outside the
    fragment. *)
Definition reserved_words : list string :=
  ["await"; "break"; "case"; "catch"; "class"; "const"; "continue"; "debugger";
   "default"; "delete"; "do"; "else"; "enum"; "export"; "extends"; "false";
   "finally"; "for"; "function"; "if"; "import"; "in"; "instanceof"; "new";
   "null"; "return"; "super"; "switch"; "this"; "throw"; "true"; "try";
   "typeof"; "var"; "void"; "while"; "with"; "yield"; "let"; "static";
   "implements"; "interface"; "package"; "private"; "protected"; "public";
   "arguments"; "eval"]%string.

Definition is_reserved (name : string) : bool :=
  existsb (String.eqb name) reserved_words.

(** The digits at the head of [s], appended to the mantissa [m]. *)
Fixpoint take_digits (s : string) (m : Z) (count : nat) : Z * nat * string :=
  match s with
  | EmptyString => (m, count, s)
  | String c s' =>
      if is_digit c then take_digits s' (10 * m + digit_value c) (S count)
      else (m, count, s)
  end.

(** A decimal literal [ddd], [ddd.ddd], [ddd.] or [.ddd] at the head of [s]:
    its value and its length.  A literal with a leading zero, with a
    mantissa of [2^53] or more, or with more than 18 decimals is outside
    the fragment. *)
Definition lex_number (s : string) : option (float * nat) :=
  let '(m1, n1, r1) := take_digits s 0 0 in
  if starts_with "0" s && (2 <=? n1)%nat then None
  else
    match r1 with
    | String "."%char r2 =>
        let '(m2, n2, r3) := take_digits r2 m1 0 in
        if (1 <=? n1 + n2)%nat && ends_token r3 && (m2 <? 2 ^ 53)%Z && (n2 <=? 18)%nat
        then Some (float_of_dec m2 n2, (n1 + 1 + n2)%nat)
        else None
    | _ =>
        if (1 <=? n1)%nat && ends_token r1 && (m1 <? 2 ^ 53)%Z
        then Some (float_of_Z m1, n1)
        else None
    end.

Definition math_names : list (string * MathFn) :=
  [("Math.sin", Fsin); ("Math.cos", Fcos); ("Math.tan", Ftan);
   ("Math.sqrt", Fsqrt); ("Math.exp", Fexp); ("Math.abs", Fabs)]%string.

Fixpoint drop (k : nat) (s : string) : string :=
  match k, s with
  | S k', String _ s' => drop k' s'
  | _, _ => s
  end.

Fixpoint lex_math_in (names : list (string * MathFn)) (s : string) : option (MathFn * nat) :=
  match names with
  | [] => None
  | (nm, f) :: names' =>
      if String.prefix nm s && ends_token (drop (String.length nm) s)
      then Some (f, String.length nm)
      else lex_math_in names' s
  end.

Definition lex_math : string -> option (MathFn * nat) := lex_math_in math_names.

Definition cons_token (t : token) (ts : option (list token)) : option (list token) :=
  option_map (cons t) ts.

(** The tokens of a text; [None] when a character or a token is outside the
    fragment ([++], [--], a comment, a name with a digit, ...).  [skip] counts the
    characters of the current token still to be passed. *)
Fixpoint lex (skip : nat) (s : string) : option (list token) :=
  match s with
  | EmptyString => Some []
  | String c s' =>
      match skip with
      | S k => lex k s'
      | O =>
          if Ascii.eqb c " " then lex 0 s'
          else if is_digit c || Ascii.eqb c "." then
            match lex_number s with
            | Some (v, len) => cons_token (TNum v) (lex (len - 1) s')
            | None => None
            end
          else if String.prefix "Math." s then
            match lex_math s with
            | Some (f, len) => cons_token (TMath f) (lex (len - 1) s')
            | None => None
            end
          else if is_letter c then
            let name := take_letters s in
            if ends_token (drop (String.length name) s) && negb (is_reserved name)
            then cons_token (TIdent name) (lex (String.length name - 1) s')
            else None
          else if Ascii.eqb c "(" then cons_token TLParen (lex 0 s')
          else if Ascii.eqb c ")" then cons_token TRParen (lex 0 s')
          else if Ascii.eqb c "+" then
            if starts_with "+" s' then None else cons_token TPlus (lex 0 s')
          else if Ascii.eqb c "-" then
            if starts_with "-" s' then None else cons_token TMinus (lex 0 s')
          else if Ascii.eqb c "*" then
            if starts_with "*" s' then cons_token TPow (lex 1 s')
            else cons_token TStar (lex 0 s')
          else if Ascii.eqb c "/" then
            if starts_with "/" s' || starts_with "*" s' then None
            else cons_token TSlash (lex 0 s')
          else None
      end
  end.

(** *** Syntax

    The grammar of the language over these tokens.  A unary expression
    cannot be the base of [**] ([-2**2] is a [SyntaxError]); any primary can
    be called, with no or one argument; a [/] where an operand is expected
    opens a regular expression and leaves the fragment. *)

Inductive binop : Type := Add | Sub | Mul | Div | Pow.

Inductive expr : Type :=
| ENum (v : float)
| EIdent (name : string)
| EMath (f : MathFn)
| ECall0 (callee : expr)
| ECall1 (callee arg : expr)
| ENeg (e : expr)
| EPlus (e : expr)
| EBin (op : binop) (l r : expr).

Definition parsed : Type := completion (expr * list token).

Definition map_parsed (f : expr -> expr) (p : parsed) : parsed :=
  r <~ p ;; Normal (f (fst r), snd r).

Fixpoint parse_additive (fuel : nat) (ts : list token) : parsed :=
  match fuel with
  | O => Unmodelled
  | S fuel' =>
      r <~ parse_multiplicative fuel' ts ;;
      parse_additive_rest fuel' (fst r) (snd r)
  end
with parse_additive_rest (fuel : nat) (l : expr) (ts : list token) : parsed :=
  match fuel with
  | O => Unmodelled
  | S fuel' =>
      match ts with
      | TPlus :: ts' =>
          r <~ parse_multiplicative fuel' ts' ;;
          parse_additive_rest fuel' (EBin Add l (fst r)) (snd r)
      | TMinus :: ts' =>
          r <~ parse_multiplicative fuel' ts' ;;
          parse_additive_rest fuel' (EBin Sub l (fst r)) (snd r)
      | _ => Normal (l, ts)
      end
  end
with parse_multiplicative (fuel : nat) (ts : list token) : parsed :=
  match fuel with
  | O => Unmodelled
  | S fuel' =>
      r <~ parse_exponent fuel' ts ;;
      parse_multiplicative_rest fuel' (fst r) (snd r)
  end
with parse_multiplicative_rest (fuel : nat) (l : expr) (ts : list token) : parsed :=
  match fuel with
  | O => Unmodelled
  | S fuel' =>
      match ts with
      | TStar :: ts' =>
          r <~ parse_exponent fuel' ts' ;;
          parse_multiplicative_rest fuel' (EBin Mul l (fst r)) (snd r)
      | TSlash :: ts' =>
          r <~ parse_exponent fuel' ts' ;;
          parse_multiplicative_rest fuel' (EBin Div l (fst r)) (snd r)
      | _ => Normal (l, ts)
      end
  end
with parse_exponent (fuel : nat) (ts : list token) : parsed :=
  match fuel with
  | O => Unmodelled
  | S fuel' =>
      match ts with
      | TPlus :: _ | TMinus :: _ =>
          r <~ parse_unary fuel' ts ;;
          match snd r with
          | TPow :: _ => Throw JsSyntaxError
          | _ => Normal r
          end
      | _ =>
          r <~ parse_call fuel' ts ;;
          match snd r with
          | TPow :: ts' => map_parsed (EBin Pow (fst r)) (parse_exponent fuel' ts')
          | _ => Normal r
          end
      end
  end
with parse_unary (fuel : nat) (ts : list token) : parsed :=
  match fuel with
  | O => Unmodelled
  | S fuel' =>
      match ts with
      | TMinus :: ts' => map_parsed ENeg (parse_unary fuel' ts')
      | TPlus :: ts' => map_parsed EPlus (parse_unary fuel' ts')
      | _ => parse_call fuel' ts
      end
  end
with parse_call (fuel : nat) (ts : list token) : parsed :=
  match fuel with
  | O => Unmodelled
  | S fuel' =>
      r <~ parse_primary fuel' ts ;;
      parse_arguments fuel' (fst r) (snd r)
  end
with parse_arguments (fuel : nat) (callee : expr) (ts : list token) : parsed :=
  match fuel with
  | O => Unmodelled
  | S fuel' =>
      match ts with
      | TLParen :: TRParen :: ts' => parse_arguments fuel' (ECall0 callee) ts'
      | TLParen :: ts' =>
          r <~ parse_additive fuel' ts' ;;
          match snd r with
          | TRParen :: ts'' => parse_arguments fuel' (ECall1 callee (fst r)) ts''
          | _ => Throw JsSyntaxError
          end
      | _ => Normal (callee, ts)
      end
  end
with parse_primary (fuel : nat) (ts : list token) : parsed :=
  match fuel with
  | O => Unmodelled
  | S fuel' =>
      match ts with
      | TNum v :: ts' => Normal (ENum v, ts')
      | TIdent name :: ts' => Normal (EIdent name, ts')
      | TMath f :: ts' => Normal (EMath f, ts')
      | TLParen :: ts' =>
          r <~ parse_additive fuel' ts' ;;
          match snd r with
          | TRParen :: ts'' => Normal (fst r, ts'')
          | _ => Throw JsSyntaxError
          end
      | TSlash :: _ => Unmodelled
      | _ => Throw JsSyntaxError
      end
  end.

(** The whole text is one expression.  The fuel is a generous multiple of
    the number of tokens; running out of it could only make the model silent
    ([Unmodelled]), never wrong. *)
Definition parse_program (ts : list token) : completion expr :=
  r <~ parse_additive (16 * S (List.length ts)) ts ;;
  match snd r with
  | [] => Normal (fst r)
  | _ :: _ => Throw JsSyntaxError
  end.

(** *** Evaluation *)

Inductive value : Type :=
| VNum (v : float)
| VFun (f : MathFn).

(** [ToNumber]: a function object converts to [NaN]. *)
Definition ToNumber (v : value) : float :=
  match v with
  | VNum x => x
  | VFun _ => nan
  end.

Section Engine.
Context `{MathEngine}.

Definition apply_math (f : MathFn) (x : float) : float :=
  match f with
  | Fsin => engine_sin x
  | Fcos => engine_cos x
  | Ftan => engine_tan x
  | Fsqrt => PrimFloat.sqrt x
  | Fexp => engine_exp x
  | Fabs => PrimFloat.abs x
  end.

(** The call [cv(av)]: a [Math] function converts its argument with
    [ToNumber]; a number is not callable. *)
Definition call (cv av : value) : completion value :=
  match cv with
  | VFun f => Normal (VNum (apply_math f (ToNumber av)))
  | VNum _ => Throw JsTypeError
  end.

(** A name that the global scope binds is a value of the engine or of the
    page ([Unmodelled]), and reading any other name throws a
    [ReferenceError]; [+] with a function operand concatenates texts
    ([Unmodelled]); the other
    operators convert their operands with [ToNumber]; a missing argument is
    [undefined], which converts to [NaN]; calling a number throws a
    [TypeError] once the argument has been evaluated. *)
Fixpoint eval (e : expr) : completion value :=
  match e with
  | ENum v => Normal (VNum v)
  | EIdent name => if engine_binds name then Unmodelled else Throw JsReferenceError
  | EMath f => Normal (VFun f)
  | ECall0 callee => cv <~ eval callee ;; call cv (VNum nan)
  | ECall1 callee arg => cv <~ eval callee ;; av <~ eval arg ;; call cv av
  | ENeg e1 => v <~ eval e1 ;; Normal (VNum (PrimFloat.opp (ToNumber v)))
  | EPlus e1 => v <~ eval e1 ;; Normal (VNum (ToNumber v))
  | EBin op l r =>
      lv <~ eval l ;;
      rv <~ eval r ;;
      match op with
      | Add =>
          match lv, rv with
          | VNum a, VNum b => Normal (VNum (PrimFloat.add a b))
          | _, _ => Unmodelled
          end
      | Sub => Normal (VNum (PrimFloat.sub (ToNumber lv) (ToNumber rv)))
      | Mul => Normal (VNum (PrimFloat.mul (ToNumber lv) (ToNumber rv)))
      | Div => Normal (VNum (PrimFloat.div (ToNumber lv) (ToNumber rv)))
      | Pow => Normal (VNum (engine_pow (ToNumber lv) (ToNumber rv)))
      end
  end.

(** [Function('"use strict"; return (' + src + ')')()]. *)
Definition js_Function_return (src : string) : completion value :=
  match lex 0 ("(" ++ src ++ ")") with
  | None => Unmodelled
  | Some ts => e <~ parse_program ts ;; eval e
  end.

(** ** [evaluateExpression]

    The result is the returned value and what the call wrote with
    [console.error]; [None] when the substituted text is outside the
    modelled fragment.  The bindings are the integers the callers pass
    (a question's point, or the probe point of [compareAnswers]). *)
Definition evaluateExpression (expr : string) (x y : Z)
  : option (value * list js_error) :=
  match js_Function_return (substitute expr x y) with
  | Normal v => Some (v, [])
  | Throw err => Some (VNum nan, [err])
  | Unmodelled => None
  end.

(** [isNaN(v)]: [ToNumber v] is not equal to itself. *)
Definition isNaN (v : value) : bool := negb (PrimFloat.eqb (ToNumber v) (ToNumber v)).

(** [0.01], the default tolerance of [compareAnswers]. *)
Definition default_tolerance : float := float_of_dec 1 2.

(** ** [compareAnswers] *)
Definition compareAnswers (userAnswer correctAnswer : string) (tolerance : option float)
  : option (bool * list js_error) :=
  let tolerance := match tolerance with Some t => t | None => default_tolerance end in
  match evaluateExpression userAnswer 1 1 with
  | None => None
  | Some (userNum, log1) =>
      match evaluateExpression correctAnswer 1 1 with
      | None => None
      | Some (correctNum, log2) =>
          if isNaN userNum || isNaN correctNum then Some (false, log1 ++ log2)
          else
            Some (PrimFloat.ltb
                    (PrimFloat.abs (PrimFloat.sub (ToNumber userNum) (ToNumber correctNum)))
                    tolerance,
                  log1 ++ log2)
      end
  end.

End Engine.

(** ** 3D plotting data *)

Section Plot.
Context {T : Type} `{JsNumber T}.
Local Open Scope js_scope.

Record SurfaceData : Type := {
  surface_x : list T;
  surface_y : list T;
  surface_z : list (list T)
}.

(** The loop [for (let i = lo; i <= hi; i += step) xs.push(i)].  Nothing
    in the source bounds the number of its rounds, so the model counts
    them: [None] when [fuel] rounds were not enough. *)
Fixpoint sample_axis (fuel : nat) (i hi step : T) : option (list T) :=
  match fuel with
  | O => None
  | S fuel' =>
      if i <=? hi
      then option_map (cons i) (sample_axis fuel' (i + step) hi step)
      else Some []
  end.

Definition generateSurfaceData (fuel : nat) (func : FunctionInstance T) (x0 y0 : T)
  : option SurfaceData :=
  let range := num_of_Z 5 in
  let step := num_dec 3 1 in
  match sample_axis fuel (x0 - range) (x0 + range) step with
  | None => None
  | Some x =>
      match sample_axis fuel (y0 - range) (y0 + range) step with
      | None => None
      | Some y =>
          Some {| surface_x := x;
                  surface_y := y;
                  surface_z := map (fun yi => map (fun xi => evaluate func xi yi) x) y |}
      end
  end.

Record ArrowTrace : Type := {
  trace_x : list T;
  trace_y : list T;
  trace_z : list T;
  trace_mode : string;
  trace_type : string;
  trace_name : string;
  trace_line : string * Z;
  trace_marker : Z * string
}.

Definition generateGradientArrows (func : FunctionInstance T) (x0 y0 : T) : ArrowTrace :=
  let dfdx := partialXValue func x0 y0 in
  let dfdy := partialYValue func x0 y0 in
  let z0 := evaluate func x0 y0 in
  let scale := num_dec 3 1 in
  let magnitude := Math_sqrt (dfdx * dfdx + dfdy * dfdy) in
  let scaledDfdx :=
    if num_of_Z 0 <? magnitude then (dfdx / magnitude) * scale else num_of_Z 0 in
  let scaledDfdy :=
    if num_of_Z 0 <? magnitude then (dfdy / magnitude) * scale else num_of_Z 0 in
  {| trace_x := [x0; x0 + scaledDfdx];
     trace_y := [y0; y0 + scaledDfdy];
     trace_z := [z0; z0];
     trace_mode := "lines+markers";
     trace_type := "scatter3d";
     trace_name := "Gradient Vector";
     trace_line := ("#f6ad55"%string, 8%Z);
     trace_marker := (8%Z, "#f6ad55"%string) |}.

End Plot.

Arguments SurfaceData T : clear implicits.
Arguments ArrowTrace T : clear implicits.

(** ** Question management *)

Record Question : Type := {
  functionKey : FunctionKey;
  func : FunctionInstance float;
  point : Point;
  answered : bool;
  correct : option bool
}.

Record Stats : Type := {
  stats_correct : nat;
  stats_attempted : nat
}.

(** The global [STATE].  [currentFunction] is the selected key and, once
    [updatePlot] has run, the instance it generated for the plot. *)
Record State : Type := {
  currentFunction : FunctionKey * option (FunctionInstance float);
  currentPoint : float * float;
  currentQuestion : option Question;
  stats : Stats
}.

Definition STATE : State := {|
  currentFunction := (quadratic, None);
  currentPoint := (0%float, 0%float);
  currentQuestion := None;
  stats := {| stats_correct := 0; stats_attempted := 0 |}
|}.

(** What [checkAnswer] hands to [displayFeedback]. *)
Record Feedback : Type := {
  dfdxCorrect : bool;
  dfdyCorrect : bool;
  allCorrect : bool;
  correctDfDx : float;
  correctDfDy : float
}.

Inductive CheckOutcome : Type :=
| Alerted (message : string)
| Uncaught (err : js_error)
| Graded (st : State) (feedback : Feedback) (console : list js_error)
| OutsideFragment.

Section Session.
Context `{MathEngine}.

Definition funcKeys : list FunctionKey := [quadratic; exponential; sinusoidal; saddle].

(** The effect of [updatePlot] on [STATE] when the three input fields hold
    [key], [x] and [y]: it generates an instance of its own for the plot. *)
Definition updatePlot (key : FunctionKey) (x y : Z) (st : State) : Rand State :=
  currentFunc <- generate (FUNCTIONS key) ;;
  ret {| currentFunction := (key, Some currentFunc);
         currentPoint := (float_of_Z x, float_of_Z y);
         currentQuestion := currentQuestion st;
         stats := stats st |}.

(** [generateNewQuestion]: a key, an instance, a point; the question starts
    unanswered; the plot is updated from the fields just written. *)
Definition generateNewQuestion (st : State) : Rand State :=
  r <- Math_random ;;
  let i := Math_floor (PrimFloat.mul r (float_of_Z (Z.of_nat (List.length funcKeys)))) in
  let funcKey := nth (Z.to_nat (whole i)) funcKeys quadratic in
  f <- generate (FUNCTIONS funcKey) ;;
  p <- randomPoint ;;
  let q := {| functionKey := funcKey; func := f; point := p;
              answered := false; correct := None |} in
  updatePlot funcKey (px p) (py p)
    {| currentFunction := currentFunction st;
       currentPoint := currentPoint st;
       currentQuestion := Some q;
       stats := stats st |}.

(** [0.05], the tolerance of [checkAnswer]. *)
Definition tolerance : float := float_of_dec 5 2.

Definition within_tolerance (userValue : value) (correctValue : float) : bool :=
  PrimFloat.ltb (PrimFloat.abs (PrimFloat.sub (ToNumber userValue) correctValue)) tolerance.

Definition is_empty (s : string) : bool :=
  match s with
  | EmptyString => true
  | _ => false
  end.

(** [checkAnswer], with the two trimmed field values as arguments.  Reading
    [STATE.currentQuestion.func] when there is no question is an uncaught
    [TypeError]. *)
Definition checkAnswer (st : State) (userDfDx userDfDy : string) : CheckOutcome :=
  if is_empty userDfDx || is_empty userDfDy
  then Alerted "Please fill in both partial derivatives."
  else
    match currentQuestion st with
    | None => Uncaught JsTypeError
    | Some q =>
        let x := px (point q) in
        let y := py (point q) in
        let cx := partialXValue (func q) (float_of_Z x) (float_of_Z y) in
        let cy := partialYValue (func q) (float_of_Z x) (float_of_Z y) in
        match evaluateExpression userDfDx x y with
        | None => OutsideFragment
        | Some (userDfDxValue, log1) =>
            match evaluateExpression userDfDy x y with
            | None => OutsideFragment
            | Some (userDfDyValue, log2) =>
                let okx := within_tolerance userDfDxValue cx in
                let oky := within_tolerance userDfDyValue cy in
                let all := okx && oky in
                Graded
                  {| currentFunction := currentFunction st;
                     currentPoint := currentPoint st;
                     currentQuestion :=
                       Some {| functionKey := functionKey q; func := func q;
                               point := point q;
                               answered := true; correct := Some all |};
                     stats :=
                       {| stats_correct :=
                            if all then S (stats_correct (stats st))
                            else stats_correct (stats st);
                          stats_attempted := S (stats_attempted (stats st)) |} |}
                  {| dfdxCorrect := okx; dfdyCorrect := oky; allCorrect := all;
                     correctDfDx := cx; correctDfDy := cy |}
                  (log1 ++ log2)
            end
        end
    end.

End Session.

(** ** Texts shown to the learner *)

(** [s.replace(pat, rep)] for a literal, non-empty [pat] and a replacement
    without [$]: the first match only. *)
Fixpoint replace_first (pat rep s : string) : string :=
  match s with
  | EmptyString => EmptyString
  | String c s' =>
      if String.prefix pat s then (rep ++ drop (String.length pat) s)%string
      else String c (replace_first pat rep s')
  end.

Definition line_feed : ascii := ascii_of_nat 10.

(** The loop of [generateNewQuestion] over [Object.entries(func)]: each
    coefficient, in insertion order, is put in place of the first occurrence
    of its placeholder; the closures are passed over. *)
Definition fill_placeholders (func : FunctionInstance float) (questionText : string) : string :=
  fold_left
    (fun questionText entry =>
       replace_first ("{" ++ fst entry ++ "}") (show_Z (snd entry)) questionText)
    (coefficients func) questionText.

(** The text [generateNewQuestion] writes into the page. *)
Definition questionText (funcDef : FunctionDef float) (func : FunctionInstance float)
  (point : Point) : string :=
  (fill_placeholders func ("Given " ++ template funcDef)
   ++ String line_feed (String line_feed
        ("Compute ∇f(" ++ show_Z (px point) ++ ", " ++ show_Z (py point) ++ ")")))%string.

Definition is_lower (c : ascii) : bool :=
  let k := nat_of_ascii c in (97 <=? k)%nat && (k <=? 122)%nat.

(** [f[key]] at a one-letter key: the coefficient of that name, if any. *)
Fixpoint own_property (key : string) (entries : list (string * Z)) : option Z :=
  match entries with
  | [] => None
  | (k, v) :: entries' => if String.eqb key k then Some v else own_property key entries'
  end.

(** [f[m.slice(1, -1)] || m] for the match [m] = [{k}]: a coefficient that
    is 0 is falsy, as is a missing one. *)
Definition placeholder_text (f : FunctionInstance float) (k : ascii) : string :=
  let m := String "{" (String k "}") in
  match own_property (String k EmptyString) (coefficients f) with
  | Some v => if (v =? 0)%Z then m else show_Z v
  | None => m
  end.

(** [s.replace(/{[a-z]}/g, (m) => f[m.slice(1, -1)] || m)]. *)
Fixpoint replace_placeholders (f : FunctionInstance float) (skip : nat) (s : string) : string :=
  match s with
  | EmptyString => EmptyString
  | String c s' =>
      match skip with
      | S k => replace_placeholders f k s'
      | O =>
          match s with
          | String "{" (String k (String "}" _)) =>
              if is_lower k
              then (placeholder_text f k ++ replace_placeholders f 2 s')%string
              else String c (replace_placeholders f 0 s')
          | _ => String c (replace_placeholders f 0 s')
          end
      end
  end.

(** The line of [displayFeedback] that writes the function down, in the
    step-by-step solution. *)
Definition solutionFunctionLine (funcDef : FunctionDef float) (f : FunctionInstance float)
  : string :=
  replace_placeholders f 0 (template funcDef).

(** ** An engine to run examples with

    Truncated power series for the functions that ECMAScript leaves to the
    implementation.  Every statement below that mentions an engine holds for
    all of them; this one is what the examples are computed with. *)

Fixpoint power_series (rounds : nat) (next : float -> float -> float)
  (k term acc : float) : float :=
  match rounds with
  | O => acc
  | S rounds' =>
      let term' := next k term in
      power_series rounds' next (PrimFloat.add k 1) term' (PrimFloat.add acc term')
  end.

Definition series_exp (x : float) : float :=
  power_series 40 (fun k term => PrimFloat.div (PrimFloat.mul term x) k) 1 1 1.

Definition series_sin (x : float) : float :=
  power_series 20
    (fun k term =>
       PrimFloat.div (PrimFloat.opp (PrimFloat.mul (PrimFloat.mul term x) x))
         (PrimFloat.mul (PrimFloat.mul 2 k) (PrimFloat.add (PrimFloat.mul 2 k) 1)))
    1 x x.

Definition series_cos (x : float) : float :=
  power_series 20
    (fun k term =>
       PrimFloat.div (PrimFloat.opp (PrimFloat.mul (PrimFloat.mul term x) x))
         (PrimFloat.mul (PrimFloat.sub (PrimFloat.mul 2 k) 1) (PrimFloat.mul 2 k)))
    1 1 1.

(** The logarithm by Halley's iteration on [series_exp]. *)
Fixpoint halley_ln (rounds : nat) (x t : float) : float :=
  match rounds with
  | O => t
  | S rounds' =>
      let et := series_exp t in
      halley_ln rounds' x
        (PrimFloat.add t
           (PrimFloat.div (PrimFloat.mul 2 (PrimFloat.sub x et)) (PrimFloat.add x et)))
  end.

Fixpoint repeated_mul (k : nat) (x : float) : float :=
  match k with
  | O => 1%float
  | S k' => PrimFloat.mul x (repeated_mul k' x)
  end.

(** [x ** y]: repeated multiplication at a whole exponent up to 64,
    [exp(y * ln x)] at a positive base otherwise. *)
Definition series_pow (x y : float) : float :=
  match find (fun k => PrimFloat.eqb (PrimFloat.abs y) (float_of_Z (Z.of_nat k))) (seq 0 65) with
  | Some k =>
      if PrimFloat.ltb y 0 then PrimFloat.div 1 (repeated_mul k x) else repeated_mul k x
  | None =>
      if PrimFloat.ltb 0 x then series_exp (PrimFloat.mul y (halley_ln 60 x 0)) else nan
  end.

(** Names of letters that a browser page with [main.js] binds: built-in
    objects and functions of the language and of the browser, and the
    declarations of [main.js]. *)
Definition sample_globals : list string :=
  ["Infinity"; "NaN"; "undefined"; "globalThis"; "isFinite"; "isNaN";
   "parseFloat"; "parseInt"; "Array"; "Boolean"; "Date"; "Error"; "Function";
   "JSON"; "Map"; "Math"; "Number"; "Object"; "Promise"; "RegExp"; "Set";
   "String"; "Symbol"; "window"; "self"; "document"; "console"; "alert";
   "name"; "top"; "Plotly"; "STATE"; "FUNCTIONS"; "randomInt"; "randomPoint";
   "evaluateExpression"; "compareAnswers"; "generateSurfaceData";
   "generateGradientArrows"; "updatePlot"; "generateNewQuestion"; "checkAnswer";
   "displayFeedback"; "updateStats"]%string.

Definition sample_engine : MathEngine := {|
  engine_pow := series_pow;
  engine_exp := series_exp;
  engine_sin := series_sin;
  engine_cos := series_cos;
  engine_tan := fun x => PrimFloat.div (series_sin x) (series_cos x);
  engine_binds := fun name => existsb (String.eqb name) sample_globals
|}.

(** ** Vocabulary of the statements *)

(** A value [Math.random()] can return: [+0] or a positive number, and
    below 1. *)
Definition valid_draw (r : float) : Prop :=
  (r = 0%float \/ PrimFloat.ltb 0 r = true) /\ PrimFloat.ltb r 1 = true.

(** What [k] right shifts leave of a mantissa: at least [k] low bits
    are is dropped, and half a unit more when the round bit is set. *)
Definition shifted (k : Z) (mrs mrs' : shr_record) : Prop :=
  (0 <= shr_m mrs' /\
   2 ^ k * shr_m mrs' + (if shr_r mrs' then 2 ^ (k - 1) else 0) <= shr_m mrs)%Z.

(** The ranges the program draws from: the coordinates of a point and the
    curvature coefficients, the shifts, the amplitudes. *)
Definition drawn_ranges : list (Z * Z) := [(-3, 3); (-2, 2); (1, 3)]%Z.

(** The exclusions it asks for: none, as for a point or an amplitude, or 0. *)
Definition drawn_exclusions : list (option Z) := [None; Some 0%Z].

(** [randomInt min max exclude] on [draws] stops at the draw [r]: the draws
    before it all gave the excluded value, [r] does not, and [rest] is what
    is left of the source. *)
Definition stops_at (min max : Z) (exclude : option Z)
  (draws skipped : list float) (r : float) (rest : list float) : Prop :=
  draws = skipped ++ r :: rest /\
  Forall (fun q => is_excluded exclude (scale_draw min max q) = true) skipped /\
  is_excluded exclude (scale_draw min max r) = false.

(** The coefficient rules of the four families as the specification declares
    them: the name, the closed integer range and the excluded value. *)
Record CoefficientRule : Type := {
  rule_name : string;
  rule_min : Z;
  rule_max : Z;
  rule_exclude : option Z
}.

Definition declared_rules (key : FunctionKey) : list CoefficientRule :=
  let curvature nm := {| rule_name := nm; rule_min := -3; rule_max := 3; rule_exclude := Some 0%Z |} in
  let shift nm := {| rule_name := nm; rule_min := -2; rule_max := 2; rule_exclude := Some 0%Z |} in
  let amplitude nm := {| rule_name := nm; rule_min := 1; rule_max := 3; rule_exclude := None |} in
  match key with
  | quadratic => [curvature "a"; curvature "b"; curvature "c"; shift "d"; shift "e"]
  | exponential => [amplitude "a"; amplitude "c"; shift "d"]
  | sinusoidal => [amplitude "a"; amplitude "b"; shift "c"]
  | saddle => [amplitude "a"; amplitude "b"]
  end%string.

Definition obeys (rule : CoefficientRule) (coefficient : string * Z) : Prop :=
  fst coefficient = rule_name rule /\
  (rule_min rule <= snd coefficient <= rule_max rule)%Z /\
  rule_exclude rule <> Some (snd coefficient).

Definition within (lo hi n : Z) : Prop := (lo <= n <= hi)%Z.
Definition nonzero_within (lo hi n : Z) : Prop := (lo <= n <= hi)%Z /\ n <> 0%Z.

(** The instances a family's [generate] can return. *)
Inductive generated {T : Type} `{JsNumber T} : FunctionKey -> FunctionInstance T -> Prop :=
| generated_quadratic (a b c d e : Z) :
    nonzero_within (-3) 3 a -> nonzero_within (-3) 3 b -> nonzero_within (-3) 3 c ->
    nonzero_within (-2) 2 d -> nonzero_within (-2) 2 e ->
    generated quadratic (quadratic_instance a b c d e)
| generated_exponential (a c d : Z) :
    within 1 3 a -> within 1 3 c -> nonzero_within (-2) 2 d ->
    generated exponential (exponential_instance a c d)
| generated_sinusoidal (a b c : Z) :
    within 1 3 a -> within 1 3 b -> nonzero_within (-2) 2 c ->
    generated sinusoidal (sinusoidal_instance a b c)
| generated_saddle (a b : Z) :
    within 1 3 a -> within 1 3 b ->
    generated saddle (saddle_instance a b).



(** The arithmetic progression [i, i + step, ...] of [m] terms. *)
Definition progression (i step : R) (m : nat) : list R :=
  map (fun k => (i + INR k * step)%R) (seq 0 m).

(** In binary64, the samples [xs] of one axis around the whole center [c]
    are as the sampler is expected to give them: 34 of them, the first
    exactly [c - 5], the last within one step of [c + 5]. *)
Definition axis_in_window (c : Z) (xs : list float) : Prop :=
  List.length xs = 34%nat /\
  hd_error xs = Some (float_of_Z (c - 5)) /\
  PrimFloat.ltb
    (PrimFloat.abs (PrimFloat.sub (last xs 0%float) (float_of_Z (c + 5))))
    (float_of_dec 3 1) = true.

(** A binary64 value that is no finite number: [NaN], [Infinity] or
    [-Infinity]. *)
Definition not_finite (u : float) : Prop :=
  Prim2SF u = S754_nan \/ exists s, Prim2SF u = S754_infinity s.

Section CheckerWords.
Context `{MathEngine}.

(** The expressions of arithmetic: numbers, signs, the five operators, and
    the six functions applied to one argument. *)
Fixpoint arithmetic (e : expr) : bool :=
  match e with
  | ENum _ => true
  | ENeg e1 | EPlus e1 => arithmetic e1
  | EBin _ l r => arithmetic l && arithmetic r
  | ECall1 (EMath _) arg => arithmetic arg
  | _ => false
  end.

(** What binary64 arithmetic gives for such an expression.  None of its
    operations fails: a division by zero is an infinity or [NaN], the
    square root of a negative number is [NaN]. *)
Fixpoint ieee_value (e : expr) : float :=
  match e with
  | ENum v => v
  | ENeg e1 => PrimFloat.opp (ieee_value e1)
  | EPlus e1 => ieee_value e1
  | EBin Add l r => PrimFloat.add (ieee_value l) (ieee_value r)
  | EBin Sub l r => PrimFloat.sub (ieee_value l) (ieee_value r)
  | EBin Mul l r => PrimFloat.mul (ieee_value l) (ieee_value r)
  | EBin Div l r => PrimFloat.div (ieee_value l) (ieee_value r)
  | EBin Pow l r => engine_pow (ieee_value l) (ieee_value r)
  | ECall1 (EMath f) arg => apply_math f (ieee_value arg)
  | _ => nan
  end.

(** The engine throws on the text that [evaluateExpression] builds. *)
Definition evaluation_throws (expr : string) (x y : Z) (err : js_error) : Prop :=
  js_Function_return (substitute expr x y) = Throw err.

(** [AnswerChecker.check] in the words of the specification: the learner's
    text is evaluated at the question's point and matches when
    [|userValue - correctValue| < tolerance].  [None] when the text is
    outside the modelled fragment. *)
Definition AnswerChecker_check (userExpr : string) (pt : Point)
  (correctValue tol : float) : option bool :=
  match evaluateExpression userExpr (px pt) (py pt) with
  | Some (userValue, _) =>
      Some (PrimFloat.ltb
              (PrimFloat.abs (PrimFloat.sub (ToNumber userValue) correctValue)) tol)
  | None => None
  end.

(** The question after grading with verdict [verdict]. *)
Definition graded_question (q : Question) (verdict : bool) : Question :=
  {| functionKey := functionKey q; func := func q; point := point q;
     answered := true; correct := Some verdict |}.

End CheckerWords.

(** ** Examples to run *)

(** Binary64 numbers with the sample engine. *)
Definition sample_numbers : JsNumber float := float_JsNumber (H := sample_engine).

(** The saddle [2x² - y²] asked at [(1, -1)], not yet answered. *)
Definition saddle_question : Question :=
  {| functionKey := saddle;
     func := saddle_instance (H := sample_numbers) 2 1;
     point := {| px := 1; py := -1 |};
     answered := false;
     correct := None |}.

Definition saddle_state : State :=
  {| currentFunction := (saddle, None);
     currentPoint := (1%float, (-1)%float);
     currentQuestion := Some saddle_question;
     stats := {| stats_correct := 0; stats_attempted := 0 |} |}.


(** ** Vocabulary of the further properties *)

(** The whole numbers [lo], [lo + 1], ...: [count] of them. *)
Definition whole_numbers (lo : Z) (count : nat) : list Z :=
  map (fun i => (lo + Z.of_nat i)%Z) (seq 0 count).

Definition from_minus3_to_3 : list Z := whole_numbers (-3) 7.
Definition from_minus2_to_2 : list Z := whole_numbers (-2) 5.
Definition from_1_to_3 : list Z := whole_numbers 1 3.

Definition for_all3 (l1 l2 l3 : list Z) (P : Z -> Z -> Z -> bool) : bool :=
  forallb (fun a => forallb (fun b => forallb (fun c => P a b c) l3) l2) l1.

Definition for_all5 (l1 l2 l3 l4 l5 : list Z) (P : Z -> Z -> Z -> Z -> Z -> bool) : bool :=
  forallb (fun a => forallb (fun b => for_all3 l3 l4 l5 (P a b)) l2) l1.

(** A draw at which [randomInt min max] gives [n]: the binary64 number
    nearest to the middle of the draws that give it. *)
Definition draw_for (min max n : Z) : float :=
  PrimFloat.div (float_of_Z (2 * (n - min) + 1)) (float_of_Z (2 * (max - min + 1))).

(** A draw at which [generateNewQuestion] picks the family [i]. *)
Definition key_draw_for (i : Z) : float :=
  PrimFloat.div (float_of_Z (2 * i + 1)) (float_of_Z 8).

(** The position of a family in [Object.keys(FUNCTIONS)]. *)
Definition key_index (key : FunctionKey) : Z :=
  match key with
  | quadratic => 0
  | exponential => 1
  | sinusoidal => 2
  | saddle => 3
  end.

(** The state [generateNewQuestion] leaves when it asks about [f] at [p]
    and plots [g]. *)
Definition asked (st : State) (key : FunctionKey) (f g : FunctionInstance float) (p : Point)
  : State :=
  {| currentFunction := (key, Some g);
     currentPoint := (float_of_Z (px p), float_of_Z (py p));
     currentQuestion := Some {| functionKey := key; func := f; point := p;
                                answered := false; correct := None |};
     stats := stats st |}.

Section SessionWords.
Context `{MathEngine}.

(** The answer text is not empty, evaluates at [(x, y)] with nothing logged,
    and its value is within the grading tolerance of [correctValue]. *)
Definition accepts (answer : string) (x y : Z) (correctValue : float) : bool :=
  negb (is_empty answer) &&
  match evaluateExpression answer x y with
  | Some (v, []) => within_tolerance v correctValue
  | _ => false
  end.

(** The question text and the solution line show the same function, and no
    placeholder is left in it. *)
Definition same_function_shown (key : FunctionKey) (f : FunctionInstance float) : bool :=
  String.eqb (fill_placeholders f ("Given " ++ template (FUNCTIONS (T := float) key)))
             ("Given " ++ solutionFunctionLine (FUNCTIONS key) f)
  && negb (occurs "{" (solutionFunctionLine (FUNCTIONS key) f)).


End SessionWords.

(** ** Further examples to run *)

(** [2 sin(x) + 3 cos(y) + 1] asked at [(1, 2)], not yet answered. *)
Definition sinusoidal_question : Question :=
  {| functionKey := sinusoidal;
     func := sinusoidal_instance (H := sample_numbers) 2 3 1;
     point := {| px := 1; py := 2 |};
     answered := false;
     correct := None |}.

Definition sinusoidal_state : State :=
  {| currentFunction := (sinusoidal, None);
     currentPoint := (1%float, 2%float);
     currentQuestion := Some sinusoidal_question;
     stats := {| stats_correct := 0; stats_attempted := 0 |} |}.

(** The saddle [x² - y²]. *)
Definition plotted_saddle : FunctionInstance float :=
  saddle_instance (H := sample_numbers) 1 1.



(** * Properties *)

(** ** The random source and the coefficient rules *)

(** *** Binary64 rounding

    [Math.floor(Math.random() * n)] is computed in binary64.  The product
    of a draw below 1 and a whole number [n] is rounded to the nearest
    number; the lemmas below follow the rounding of the specification of
    binary64 ([SFmul]) far enough to show that it cannot reach [n]. *)

Section Rounding.
Local Open Scope Z_scope.

Lemma digits2_pos_bounds (m : positive) :
  2 ^ (Zpos (digits2_pos m) - 1) <= Zpos m < 2 ^ Zpos (digits2_pos m).
Proof.
  induction m as [m IH | m IH |]; cbn [digits2_pos]; [| | simpl; lia].
  all: rewrite Pos2Z.inj_succ; set (d := Z.pos (digits2_pos m)) in *;
    assert (Hd : 1 <= d) by (unfold d; lia);
    replace (Z.succ d - 1) with (Z.succ (d - 1)) by lia;
    rewrite !Z.pow_succ_r by lia;
    replace (2 ^ d) with (2 * 2 ^ (d - 1)) in *
      by (rewrite <- Z.pow_succ_r by lia; f_equal; lia);
    lia.
Qed.

Lemma shifted_1 (mrs : shr_record) : 0 <= shr_m mrs -> shifted 1 mrs (shr_1 mrs).
Proof.
  destruct mrs as [m r s]. cbn [shr_m]. intros Hm. unfold shifted, shr_1.
  destruct m as [| [p | p |] | p]; cbn [shr_m shr_r]; try lia.
Qed.

Lemma shifted_trans (a b : Z) (x y z : shr_record) :
  1 <= a -> 1 <= b -> shifted a x y -> shifted b y z -> shifted (a + b) x z.
Proof.
  intros Ha Hb [Hy Hxy] [Hz Hyz]. split; [exact Hz |].
  assert (Hr : 0 <= (if shr_r y then 2 ^ (a - 1) else 0)).
  { destruct (shr_r y); [apply Z.pow_nonneg |]; lia. }
  assert (Hpa : 0 < 2 ^ a) by (apply Z.pow_pos_nonneg; lia).
  rewrite Z.pow_add_r by lia.
  replace (a + b - 1) with (a + (b - 1)) by lia. rewrite Z.pow_add_r by lia.
  destruct (shr_r z); nia.
Qed.

Lemma shifted_iter (p : positive) (mrs : shr_record) :
  0 <= shr_m mrs -> shifted (Zpos p) mrs (SpecFloat.iter_pos shr_1 p mrs).
Proof.
  revert mrs. induction p as [p IH | p IH |]; intros mrs Hm; cbn [SpecFloat.iter_pos].
  - pose proof (shifted_1 mrs Hm) as H1.
    pose proof (IH _ (proj1 H1)) as H2.
    pose proof (IH _ (proj1 H2)) as H3.
    replace (Z.pos p~1) with (1 + Z.pos p + Z.pos p) by lia.
    eapply shifted_trans; [lia | lia | | exact H3].
    eapply shifted_trans; [lia | lia | exact H1 | exact H2].
  - pose proof (IH _ Hm) as H2.
    pose proof (IH _ (proj1 H2)) as H3.
    replace (Z.pos p~0) with (Z.pos p + Z.pos p) by lia.
    eapply shifted_trans; [lia | lia | exact H2 | exact H3].
  - now apply shifted_1.
Qed.

Lemma round_nearest_even_bounds (mrs : shr_record) :
  0 <= shr_m mrs ->
  shr_m mrs <= round_nearest_even (shr_m mrs) (loc_of_shr_record mrs)
            <= shr_m mrs + (if shr_r mrs then 1 else 0).
Proof.
  destruct mrs as [m [|] [|]]; cbn [shr_m shr_r loc_of_shr_record round_nearest_even];
    intros Hm; try lia.
  destruct (Z.even m); lia.
Qed.

Lemma shr_spec (mrs : shr_record) (e n : Z) :
  0 <= shr_m mrs -> shr_r mrs = false ->
  snd (shr mrs e n) = e + Z.max 0 n /\
  shifted (Z.max 0 n) mrs (fst (shr mrs e n)) /\
  (n <= 0 -> shr_r (fst (shr mrs e n)) = false).
Proof.
  intros Hm Hr. destruct n as [| p | p]; cbn [shr fst snd].
  - split; [lia |]. split; [| auto]. split; [exact Hm |].
    rewrite Hr. change (Z.max 0 0) with 0. rewrite Z.pow_0_r. lia.
  - split; [lia |]. split; [| lia].
    replace (Z.max 0 (Z.pos p)) with (Z.pos p) by lia. now apply shifted_iter.
  - split; [lia |]. split; [| auto]. split; [exact Hm |].
    rewrite Hr. replace (Z.max 0 (Z.neg p)) with 0 by lia. rewrite Z.pow_0_r. lia.
Qed.

(** The rounding of a product: the rounded value exceeds the exact one by at
    most half a unit of the last place kept. *)
Lemma binary_round_aux_bound (M : positive) (E : Z) :
  let k := fexp prec emax (Zdigits2 (Zpos M) + E) - E in
  let err := if 1 <=? k then 2 ^ (k - 1) else 0 in
  match binary_round_aux prec emax false (Zpos M) E loc_Exact with
  | S754_zero s => s = false
  | S754_finite s m e => s = false /\ E <= e /\ Zpos m * 2 ^ (e - E) <= Zpos M + err
  | S754_infinity s =>
      exists m e, emax - prec < e /\ E <= e /\ Zpos m * 2 ^ (e - E) <= Zpos M + err
  | S754_nan => False
  end.
Proof.
  intros k err. unfold binary_round_aux, shr_fexp.
  fold k. cbn [shr_record_of_loc].
  pose proof (shr_spec {| shr_m := Zpos M; shr_r := false; shr_s := false |} E k
                ltac:(simpl; lia) eq_refl) as (He1 & [Hm1 Hs1] & Hr1).
  destruct (shr {| shr_m := Zpos M; shr_r := false; shr_s := false |} E k) as [mrs1 e1].
  cbn [fst snd shr_m] in *.
  pose proof (round_nearest_even_bounds mrs1 Hm1) as Hround.
  set (m1 := round_nearest_even (shr_m mrs1) (loc_of_shr_record mrs1)) in *.
  set (a := Z.max 0 k) in *.
  assert (Hpa : 0 < 2 ^ a) by (apply Z.pow_pos_nonneg; lia).
  assert (Herr : 0 <= err).
  { unfold err. destruct (1 <=? k); [apply Z.pow_nonneg |]; lia. }
  assert (Hb1 : 2 ^ a * m1 <= Zpos M + err).
  { destruct (shr_r mrs1) eqn:Hr.
    - assert (Hk : 1 <= k) by (destruct (Z_le_gt_dec k 0) as [Hle |]; [specialize (Hr1 Hle); discriminate | lia]).
      unfold err. replace (1 <=? k) with true by (symmetry; apply Z.leb_le; exact Hk).
      replace a with k in * by (unfold a; lia).
      assert (H2 : 2 ^ k = 2 * 2 ^ (k - 1)).
      { rewrite <- Z.pow_succ_r by lia. f_equal. lia. }
      nia.
    - nia. }
  pose proof (shr_spec {| shr_m := m1; shr_r := false; shr_s := false |} e1
                (fexp prec emax (Zdigits2 m1 + e1) - e1)
                ltac:(simpl; lia) eq_refl) as (He2 & [Hm2 Hs2] & _).
  destruct (shr {| shr_m := m1; shr_r := false; shr_s := false |} e1
              (fexp prec emax (Zdigits2 m1 + e1) - e1)) as [mrs2 e2].
  cbn [fst snd shr_m] in *.
  set (a2 := Z.max 0 (fexp prec emax (Zdigits2 m1 + e1) - e1)) in *.
  assert (Hpa2 : 0 < 2 ^ a2) by (apply Z.pow_pos_nonneg; lia).
  assert (Hr2 : 0 <= (if shr_r mrs2 then 2 ^ (a2 - 1) else 0)).
  { destruct (shr_r mrs2); [apply Z.pow_nonneg |]; lia. }
  assert (Hb2 : shr_m mrs2 * 2 ^ (e2 - E) <= Zpos M + err).
  { replace (e2 - E) with (a + a2) by lia. rewrite Z.pow_add_r by lia. nia. }
  destruct (shr_m mrs2) as [| m | m] eqn:Hm; [reflexivity | | lia].
  destruct (e2 <=? emax - prec) eqn:Hle.
  - split; [reflexivity |]. split; [lia | exact Hb2].
  - exists m, e2. apply Z.leb_gt in Hle. split; [lia |]. split; [lia | exact Hb2].
Qed.

(** The shape of a finite binary64 number. *)
Lemma finite_shape (x : float) (s : bool) (m : positive) (e : Z) :
  Prim2SF x = S754_finite s m e ->
  -1074 <= e /\ Zpos m < 2 ^ 53 /\ (e = -1074 \/ 2 ^ 52 <= Zpos m).
Proof.
  intros Hx. pose proof (Prim2SF_valid x) as Hvalid. rewrite Hx in Hvalid.
  unfold valid_binary, SpecFloat.valid_binary, SpecFloat.bounded, SpecFloat.canonical_mantissa,
          SpecFloat.fexp in Hvalid.
  apply andb_true_iff in Hvalid. destruct Hvalid as [Hcanon _].
  apply Z.eqb_eq in Hcanon.
  change (SpecFloat.emin prec emax) with (-1074) in Hcanon. change prec with 53 in Hcanon.
  pose proof (digits2_pos_bounds m) as [Hlow Hhigh].
  set (d := Z.pos (digits2_pos m)) in *.
  assert (Hd : d <= 53) by lia.
  split; [lia |]. split.
  - eapply Z.lt_le_trans; [exact Hhigh |]. apply Z.pow_le_mono_r; lia.
  - destruct (Z.eq_dec e (-1074)) as [He | He]; [now left | right].
    assert (Hd53 : d = 53) by lia. rewrite Hd53 in Hlow. exact Hlow.
Qed.

Lemma finite_ltb (m q : positive) (e f : Z) :
  SFltb (S754_finite false m e) (S754_finite false q f) = true ->
  e < f \/ (e = f /\ Zpos m < Zpos q).
Proof.
  unfold SFltb, SFcompare. intros Hlt.
  destruct (Z.compare_spec e f) as [He | He | He]; try discriminate.
  - right. split; [exact He |].
    rewrite Pos.compare_cont_spec in Hlt. unfold Pos.switch_Eq in Hlt.
    destruct (Pos.compare_spec m q) as [Heq | Hc | Hc]; try discriminate.
    apply Pos2Z.pos_lt_pos in Hc. exact Hc.
  - now left.
Qed.

(** A draw is [+0] or a binary64 number [m * 2^e] with [m < 2^53] and
    [e <= -53]. *)
Lemma valid_draw_cases (r : float) :
  valid_draw r ->
  r = 0%float \/
  exists m e, Prim2SF r = S754_finite false m e /\ -1074 <= e <= -53 /\ Zpos m < 2 ^ 53.
Proof.
  intros [[H0 | Hpos] Hlt]; [now left | right].
  rewrite ltb_spec in Hpos, Hlt.
  change (Prim2SF 0) with (S754_zero false) in Hpos.
  change (Prim2SF 1) with (S754_finite false 4503599627370496 (-52)) in Hlt.
  destruct (Prim2SF r) as [s | s | | s m e] eqn:Hr; try discriminate.
  - destruct s; discriminate.
  - destruct s; [discriminate |]. exists m, e. split; [reflexivity |].
    destruct (finite_shape r false m e Hr) as (Hemin & Hm & Hnormal).
    split; [| exact Hm]. split; [exact Hemin |].
    destruct (finite_ltb m _ e _ Hlt) as [He | [He Hsmall]]; [lia |].
    change (Z.pos 4503599627370496) with (2 ^ 52) in Hsmall.
    destruct Hnormal as [He' | Hbig]; lia.
Qed.

(** The product of a draw [m * 2^e] and a number [mn * 2^en] of at least 1,
    with the rounding error added, stays below the number. *)
Lemma product_below (m mn : positive) (e en : Z) :
  -1074 <= e <= -53 -> Zpos m < 2 ^ 53 -> -52 <= en <= 0 -> 2 ^ 52 <= Zpos mn ->
  let E := e + en in
  let k := fexp prec emax (Zdigits2 (Zpos (m * mn)) + E) - E in
  Zpos (m * mn) + (if 1 <=? k then 2 ^ (k - 1) else 0) < Zpos mn * 2 ^ (- e).
Proof.
  intros He Hm Hen Hmn E k.
  assert (Hpe : 2 ^ 53 <= 2 ^ (- e)) by (apply Z.pow_le_mono_r; lia).
  assert (Herr : (if 1 <=? k then 2 ^ (k - 1) else 0) < Zpos mn).
  { destruct (1 <=? k) eqn:Hk; [| lia]. apply Z.leb_le in Hk.
    unfold k, fexp in *. cbn [Zdigits2] in *.
    change (SpecFloat.emin prec emax) with (-1074) in *. change prec with 53 in *.
    pose proof (digits2_pos_bounds (m * mn)) as [Hlow _].
    set (d := Z.pos (digits2_pos (m * mn))) in *.
    destruct (Z.max_spec (d + E - 53) (-1074)) as [[Hlt Hmax] | [Hle Hmax]];
      rewrite Hmax in *.
    - eapply Z.le_lt_trans; [| eapply Z.lt_le_trans; [| exact Hmn]].
      + apply (Z.pow_le_mono_r 2 _ 51); unfold E in *; lia.
      + reflexivity.
    - replace (d + E - 53 - E - 1) with (d - 1 - 53) by lia.
      assert (Hsplit : 2 ^ (d - 1) = 2 ^ (d - 1 - 53) * 2 ^ 53).
      { rewrite <- Z.pow_add_r by lia. f_equal. lia. }
      rewrite Pos2Z.inj_mul in Hlow.
      assert (Hp : 0 < 2 ^ 53) by (apply Z.pow_pos_nonneg; lia).
      nia. }
  rewrite Pos2Z.inj_mul. nia.
Qed.

Lemma zero_is_zero (x : float) : Prim2SF x = S754_zero false -> x = 0%float.
Proof. intros Hx. apply Prim2SF_inj. rewrite Hx. reflexivity. Qed.

(** [Math.floor(r * n)] for a draw [r] and a whole number [n = w] from 1 to
    [2^52]: a whole number from 0 to [w - 1]. *)
Lemma floor_of_scaled_draw (r nf : float) (mn : positive) (en w : Z) :
  valid_draw r ->
  Prim2SF nf = S754_finite false mn en ->
  -52 <= en <= 0 -> 2 ^ 52 <= Zpos mn -> Zpos mn = w * 2 ^ (- en) -> w <= 2 ^ 52 ->
  exists j, 0 <= j < w /\ Math_floor (r * nf) = float_of_Z j.
Proof.
  intros Hr Hnf Hen Hmn Hw Hw52.
  assert (Hpen : 0 < 2 ^ (- en)) by (apply Z.pow_pos_nonneg; lia).
  assert (Hwpos : 0 < w).
  { destruct (Z.lt_ge_cases 0 w) as [Hpos | Hneg]; [exact Hpos | exfalso].
    assert (Hprod : w * 2 ^ (- en) <= 0) by (apply Z.mul_nonpos_nonneg; lia). lia. }
  unfold Math_floor. rewrite mul_spec, Hnf.
  destruct (valid_draw_cases r Hr) as [-> | (m & e & Hm & He & Hm53)].
  - exists 0. split; [lia |].
    change (Prim2SF 0) with (S754_zero false). cbn [SF64mul SFmul xorb].
    apply zero_is_zero. rewrite mul_spec, Hnf. reflexivity.
  - rewrite Hm. cbn [SF64mul SFmul xorb].
    pose proof (binary_round_aux_bound (m * mn) (e + en)) as Hbound.
    pose proof (product_below m mn e en He Hm53 Hen Hmn) as Hbelow.
    cbv zeta in Hbound, Hbelow.
    set (err := if 1 <=? fexp prec emax (Zdigits2 (Z.pos (m * mn)) + (e + en)) - (e + en)
                then 2 ^ (fexp prec emax (Zdigits2 (Z.pos (m * mn)) + (e + en)) - (e + en) - 1)
                else 0) in *.
    assert (Hscale : Zpos mn * 2 ^ (- e) = w * 2 ^ (- (e + en))).
    { rewrite Hw. replace (- (e + en)) with (- en + - e) by lia.
      rewrite Z.pow_add_r by lia. ring. }
    pose proof (Prim2SF_valid (r * nf)) as Hvalid.
    rewrite mul_spec, Hnf, Hm in Hvalid. cbn [SF64mul SFmul xorb] in Hvalid.
    destruct (binary_round_aux prec emax false (Z.pos (m * mn)) (e + en) loc_Exact)
      as [s | s | | s m2 e2] eqn:Hres.
    + exists 0. split; [lia |]. subst s.
      apply zero_is_zero. rewrite mul_spec, Hnf, Hm. cbn [SF64mul SFmul xorb]. exact Hres.
    + exfalso. destruct Hbound as (m2 & e2 & Hbig & HE & Hb).
      change emax with 1024 in Hbig. change prec with 53 in Hbig.
      assert (H2 : 2 ^ (e2 - (e + en)) = 2 ^ e2 * 2 ^ (- (e + en))).
      { rewrite <- Z.pow_add_r by lia. reflexivity. }
      assert (Hpe : 0 < 2 ^ (- (e + en))) by (apply Z.pow_pos_nonneg; lia).
      assert (Hp52 : 2 ^ 52 <= 2 ^ e2).
      { apply Z.pow_le_mono_r; lia. }
      nia.
    + contradiction.
    + destruct Hbound as (-> & HE & Hb).
      assert (Hpe : 0 < 2 ^ (- (e + en))) by (apply Z.pow_pos_nonneg; lia).
      destruct (Z.leb_spec 0 e2) as [Hpos | Hneg].
      * exfalso.
        assert (H2 : 2 ^ (e2 - (e + en)) = 2 ^ e2 * 2 ^ (- (e + en))).
        { rewrite <- Z.pow_add_r by lia. f_equal; lia. }
        assert (Hshape : 2 ^ 52 <= Zpos m2).
        { unfold valid_binary, SpecFloat.valid_binary, SpecFloat.bounded, SpecFloat.canonical_mantissa,
          SpecFloat.fexp in Hvalid.
          apply andb_true_iff in Hvalid. destruct Hvalid as [Hcanon _].
          apply Z.eqb_eq in Hcanon.
          change (SpecFloat.emin prec emax) with (-1074) in Hcanon.
          change prec with 53 in Hcanon.
          pose proof (digits2_pos_bounds m2) as [Hlow _].
          assert (Hd : Z.pos (digits2_pos m2) = 53) by lia.
          rewrite Hd in Hlow. exact Hlow. }
        assert (Hp1 : 0 < 2 ^ e2) by (apply Z.pow_pos_nonneg; lia).
        nia.
      * cbn [cond_Zopp]. exists (Zpos m2 / 2 ^ (- e2)). split; [| reflexivity].
        assert (Hp2 : 0 < 2 ^ (- e2)) by (apply Z.pow_pos_nonneg; lia).
        split; [apply Z.div_pos; lia |].
        apply Z.div_lt_upper_bound; [exact Hp2 |].
        assert (H2 : 2 ^ (- (e + en)) = 2 ^ (- e2) * 2 ^ (e2 - (e + en))).
        { rewrite <- Z.pow_add_r by lia. f_equal; lia. }
        assert (Hp3 : 0 < 2 ^ (e2 - (e + en))) by (apply Z.pow_pos_nonneg; lia).
        nia.
Qed.

Lemma whole_float_of_Z (n : Z) : -8 <= n <= 8 -> whole (float_of_Z n) = n.
Proof.
  intros Hn.
  assert (Hcases : n = -8 \/ n = -7 \/ n = -6 \/ n = -5 \/ n = -4 \/ n = -3 \/ n = -2
                   \/ n = -1 \/ n = 0 \/ n = 1 \/ n = 2 \/ n = 3 \/ n = 4 \/ n = 5
                   \/ n = 6 \/ n = 7 \/ n = 8) by lia.
  repeat (destruct Hcases as [-> | Hcases]; [reflexivity |]). subst n. reflexivity.
Qed.

(** [Math.floor(r * n)] for the three widths the program uses, and for the
    four families. *)
Lemma floor_of_scaled_draw_small (r : float) (w : Z) :
  valid_draw r -> w = 3 \/ w = 4 \/ w = 5 \/ w = 7 ->
  exists j, 0 <= j < w /\ Math_floor (r * float_of_Z w) = float_of_Z j.
Proof.
  intros Hr [-> | [-> | [-> | ->]]].
  - apply (floor_of_scaled_draw r (float_of_Z 3) 6755399441055744 (-51) 3 Hr eq_refl);
      [lia | discriminate | reflexivity | discriminate].
  - apply (floor_of_scaled_draw r (float_of_Z 4) 4503599627370496 (-50) 4 Hr eq_refl);
      [lia | discriminate | reflexivity | discriminate].
  - apply (floor_of_scaled_draw r (float_of_Z 5) 5629499534213120 (-50) 5 Hr eq_refl);
      [lia | discriminate | reflexivity | discriminate].
  - apply (floor_of_scaled_draw r (float_of_Z 7) 7881299347898368 (-50) 7 Hr eq_refl);
      [lia | discriminate | reflexivity | discriminate].
Qed.

(** In each range the program draws from, a draw gives a whole number of
    the range. *)
Lemma scale_draw_range (min max : Z) (r : float) :
  valid_draw r -> In (min, max) drawn_ranges ->
  exists n, min <= n <= max /\ scale_draw min max r = float_of_Z n.
Proof.
  intros Hr Hin. unfold scale_draw.
  assert (Hcases : forall w j lo : Z,
            (w = 3 /\ lo = 1 \/ w = 5 /\ lo = -2 \/ w = 7 /\ lo = -3) -> 0 <= j < w ->
            (float_of_Z j + float_of_Z lo)%float = float_of_Z (j + lo)).
  { intros w j lo Hw Hj.
    assert (Hj8 : j = 0 \/ j = 1 \/ j = 2 \/ j = 3 \/ j = 4 \/ j = 5 \/ j = 6) by lia.
    destruct Hw as [[-> ->] | [[-> ->] | [-> ->]]];
      repeat (destruct Hj8 as [-> | Hj8]; [first [reflexivity | lia] |]);
      subst j; first [reflexivity | lia]. }
  destruct Hin as [[= <- <-] | [[= <- <-] | [[= <- <-] | []]]].
  - change (float_of_Z 3 - float_of_Z (-3) + 1)%float with (float_of_Z 7).
    destruct (floor_of_scaled_draw_small r 7 Hr) as (j & Hj & ->); [tauto |].
    exists (j + -3). split; [lia |]. apply (Hcases 7); [tauto | exact Hj].
  - change (float_of_Z 2 - float_of_Z (-2) + 1)%float with (float_of_Z 5).
    destruct (floor_of_scaled_draw_small r 5 Hr) as (j & Hj & ->); [tauto |].
    exists (j + -2). split; [lia |]. apply (Hcases 5); [tauto | exact Hj].
  - change (float_of_Z 3 - float_of_Z 1 + 1)%float with (float_of_Z 3).
    destruct (floor_of_scaled_draw_small r 3 Hr) as (j & Hj & ->); [tauto |].
    exists (j + 1). split; [lia |]. apply (Hcases 3); [tauto | exact Hj].
Qed.

End Rounding.

Section ResampleFacts.
Variables (min max : Z) (exclude : option Z).

Local Abbreviation pick := (scale_draw min max).
Local Abbreviation stops := (stops_at min max exclude).

Lemma resample_stops (rest0 : list float) :
  forall (r : float) (num : float) (rest : list float),
    resample min max exclude (pick r) rest0 = Some (num, rest) <->
    exists skipped r', stops (r :: rest0) skipped r' rest /\ num = pick r'.
Proof.
  induction rest0 as [| q rest0 IH]; intros r n rest; simpl.
  - destruct (is_excluded exclude (pick r)) eqn:Hex; split.
    + discriminate.
    + intros (skipped & r' & (Hd & Hsk & Hr') & _).
      destruct skipped as [| s skipped]; simpl in Hd.
      * injection Hd as -> _. congruence.
      * injection Hd as _ Hd. destruct skipped; discriminate.
    + intros [= <- <-]. exists [], r. repeat split; auto.
    + intros (skipped & r' & (Hd & Hsk & Hr') & ->).
      destruct skipped as [| s skipped]; simpl in Hd.
      * injection Hd as <- <-. reflexivity.
      * injection Hd as _ Hd. destruct skipped; discriminate.
  - destruct (is_excluded exclude (pick r)) eqn:Hex.
    + rewrite IH. split.
      * intros (skipped & r' & (Hd & Hsk & Hr') & ->).
        exists (r :: skipped), r'. repeat split; auto.
        simpl. now rewrite Hd.
      * intros (skipped & r' & (Hd & Hsk & Hr') & ->).
        destruct skipped as [| s skipped]; simpl in Hd.
        -- injection Hd as -> _. congruence.
        -- injection Hd as -> Hd. inversion Hsk; subst.
           exists skipped, r'. repeat split; auto.
    + split.
      * intros [= <- <-]. exists [], r. repeat split; auto.
      * intros (skipped & r' & (Hd & Hsk & Hr') & ->).
        destruct skipped as [| s skipped]; simpl in Hd.
        -- injection Hd as <- <-. reflexivity.
        -- injection Hd as -> Hd. inversion Hsk; subst. congruence.
Qed.

(** [randomInt] returns the value of the first draw that is not excluded,
    and it returns as soon as the source holds such a draw. *)
Lemma randomInt_stops (draws : list float) (n : Z) (rest : list float) :
  randomInt min max exclude draws = Some (n, rest) <->
  exists skipped r, stops draws skipped r rest /\ n = whole (pick r).
Proof.
  destruct draws as [| r rest0]; cbn [randomInt].
  - split; [discriminate |].
    intros (skipped & r & (Hd & _) & _). destruct skipped; discriminate.
  - destruct (resample min max exclude (pick r) rest0) as [[num rest'] |] eqn:Hres.
    + apply resample_stops in Hres. destruct Hres as (skipped & r' & Hstops & ->).
      split.
      * intros [= <- <-]. now exists skipped, r'.
      * intros (skipped' & r'' & Hstops' & ->).
        assert (Hsame : resample min max exclude (pick r) rest0 = Some (pick r'', rest))
          by (apply resample_stops; now exists skipped', r'').
        assert (Hfirst : resample min max exclude (pick r) rest0 = Some (pick r', rest'))
          by (apply resample_stops; now exists skipped, r').
        rewrite Hsame in Hfirst. now injection Hfirst as -> ->.
    + split; [discriminate |].
      intros (skipped' & r'' & Hstops' & ->).
      assert (Hsame : resample min max exclude (pick r) rest0 = Some (pick r'', rest))
        by (apply resample_stops; now exists skipped', r'').
      rewrite Hsame in Hres. discriminate.
Qed.

Lemma randomInt_sound (draws : list float) (n : Z) (rest : list float) :
  Forall valid_draw draws -> In (min, max) drawn_ranges ->
  randomInt min max exclude draws = Some (n, rest) ->
  (min <= n <= max)%Z /\ is_excluded exclude (float_of_Z n) = false /\
  Forall valid_draw rest.
Proof.
  intros Hv Hmm Hr. apply randomInt_stops in Hr.
  destruct Hr as (skipped & r & (Hd & Hsk & Hr) & ->). subst draws.
  apply Forall_app in Hv. destruct Hv as [_ Hv]. inversion Hv as [| ? ? Hvr Hvrest]; subst.
  destruct (scale_draw_range min max r Hvr Hmm) as (n & Hn & Heq).
  rewrite Heq in *. rewrite whole_float_of_Z.
  - repeat split; auto; lia.
  - simpl in Hmm. destruct Hmm as [[= <- <-] | [[= <- <-] | [[= <- <-] | []]]]; lia.
Qed.
End ResampleFacts.

Lemma bind_Some {A B} (m : Rand A) (k : A -> Rand B) draws b rest :
  bind m k draws = Some (b, rest) ->
  exists a mid, m draws = Some (a, mid) /\ k a mid = Some (b, rest).
Proof.
  unfold bind. destruct (m draws) as [[a mid] |]; [| discriminate].
  intros Hk. now exists a, mid.
Qed.

Lemma drawn_ranges_small (min max n : Z) :
  In (min, max) drawn_ranges -> (min <= n <= max)%Z -> (-8 <= n <= 8)%Z.
Proof. intros [[= <- <-] | [[= <- <-] | [[= <- <-] | []]]]; lia. Qed.

(** For the whole numbers of the ranges the test [num === exclude] of the
    loop is the equality of the whole numbers. *)
Lemma is_excluded_whole (exclude : option Z) (n : Z) :
  In exclude drawn_exclusions -> (-8 <= n <= 8)%Z ->
  (is_excluded exclude (float_of_Z n) = false <-> exclude <> Some n).
Proof.
  intros [<- | [<- | []]] Hn.
  - split; [discriminate | reflexivity].
  - assert (Hc : (n = -8 \/ n = -7 \/ n = -6 \/ n = -5 \/ n = -4 \/ n = -3 \/ n = -2
                 \/ n = -1 \/ n = 0 \/ n = 1 \/ n = 2 \/ n = 3 \/ n = 4 \/ n = 5
                 \/ n = 6 \/ n = 7 \/ n = 8)%Z) by lia.
    repeat (destruct Hc as [-> | Hc]); try subst n;
      first [ split; [discriminate | intros Hne; now contradiction Hne]
            | split; [intros _; discriminate | reflexivity] ].
Qed.

Lemma excluded_zero (n : Z) :
  is_excluded (Some 0%Z) (float_of_Z n) = false -> n <> 0%Z.
Proof. intros Hn ->. discriminate Hn. Qed.

Ltac draw_step Hgen Hvalid :=
  let a := fresh "a" in
  let mid := fresh "mid" in
  let Hd := fresh "Hd" in
  let Hr := fresh "Hr" in
  let Hx := fresh "Hx" in
  apply bind_Some in Hgen; destruct Hgen as (a & mid & Hd & Hgen);
  apply randomInt_sound in Hd; [| exact Hvalid | simpl; tauto];
  destruct Hd as (Hr & Hx & Hd);
  clear Hvalid; rename Hd into Hvalid.

Section GenerateFacts.
Context {T : Type} `{JsNumber T}.

Lemma generate_generated (key : FunctionKey) (draws : list float)
      (inst : FunctionInstance T) (rest : list float) :
  Forall valid_draw draws ->
  generate (FUNCTIONS key) draws = Some (inst, rest) ->
  generated key inst /\ Forall valid_draw rest.
Proof.
  intros Hvalid Hgen. destruct key; simpl in Hgen.
  - do 5 draw_step Hgen Hvalid. injection Hgen as <- <-.
    split; [| assumption].
    constructor; split; auto using excluded_zero.
  - do 3 draw_step Hgen Hvalid. injection Hgen as <- <-.
    split; [| assumption].
    constructor; first [assumption | split; auto using excluded_zero].
  - do 3 draw_step Hgen Hvalid. injection Hgen as <- <-.
    split; [| assumption].
    constructor; first [assumption | split; auto using excluded_zero].
  - do 2 draw_step Hgen Hvalid. injection Hgen as <- <-.
    split; [| assumption].
    constructor; assumption.
Qed.

Lemma generated_obeys (key : FunctionKey) (inst : FunctionInstance T) :
  generated key inst -> Forall2 obeys (declared_rules key) (coefficients inst).
Proof.
  intros Hg. destruct Hg; unfold nonzero_within, within in *; simpl;
    repeat (constructor; [unfold obeys; simpl; intuition congruence |]);
    constructor.
Qed.

(** C9.  Every instance a family generates has, coefficient by coefficient,
    the name the family declares, a value in the declared closed range and
    not the excluded value (for the quadratic family: a, b, c in [-3, 3]
    and d, e in [-2, 2], none of them 0).  And for the ranges and the
    exclusions the program asks for, on binary64 draws in [0, 1),
    [randomInt] re-samples until a draw gives a value that is not excluded:
    it returns exactly when the source holds such a draw, then the value of
    the first one, which is a whole number of the range and not the
    excluded one. *)
Theorem generated_coefficients_obey_rules
      (key : FunctionKey) (draws : list float) (inst : FunctionInstance T)
      (rest : list float) :
  Forall valid_draw draws ->
  generate (FUNCTIONS key) draws = Some (inst, rest) ->
  Forall2 obeys (declared_rules key) (coefficients inst) /\
  (forall min max exclude source n left,
      In (min, max) drawn_ranges -> In exclude drawn_exclusions ->
      Forall valid_draw source ->
      (randomInt min max exclude source = Some (n, left) <->
       exists skipped r,
         stops_at min max exclude source skipped r left /\
         n = whole (scale_draw min max r)) /\
      (randomInt min max exclude source = Some (n, left) ->
       (min <= n <= max)%Z /\ exclude <> Some n)).
Proof.
  intros Hvalid Hgen. split.
  - apply generated_obeys. now apply (generate_generated key draws inst rest).
  - intros min max exclude source n left Hmm Hex Hsource. split.
    + apply randomInt_stops.
    + intros Hr.
      destruct (randomInt_sound min max exclude source n left Hsource Hmm Hr)
        as (Hrange & Hne & _).
      split; [exact Hrange |].
      apply (is_excluded_whole exclude n Hex (drawn_ranges_small min max n Hmm Hrange)).
      exact Hne.
Qed.
End GenerateFacts.

(** A source for the quadratic family: the first draw gives 0 and is passed
    over; the coefficients are -3, 3, 1, -2, 2. *)
Lemma generated_coefficients_obey_rules_witness :
  let draws := [0.5; 0; 0.875; 0.5; 0.625; 0.5; 0; 0.5; 0.875]%float in
  Forall valid_draw draws /\
  generate (FUNCTIONS (T := R) quadratic) draws
  = Some (quadratic_instance (-3) 3 1 (-2) 2, []) /\
  Forall2 obeys (declared_rules quadratic)
    (coefficients (quadratic_instance (T := R) (-3) 3 1 (-2) 2)).
Proof.
  intros draws.
  assert (Hv : Forall valid_draw draws).
  { unfold draws. repeat (apply Forall_cons; [split; [first [now left | now right] | reflexivity] |]).
    apply Forall_nil. }
  assert (Hg : generate (FUNCTIONS (T := R) quadratic) draws
               = Some (quadratic_instance (-3) 3 1 (-2) 2, [])) by reflexivity.
  split; [exact Hv |]. split; [exact Hg |].
  exact (proj1 (generated_coefficients_obey_rules quadratic draws _ _ Hv Hg)).
Defined.

(** ** The analytic partial derivatives *)

Section RealDerivatives.
Local Open Scope R_scope.













End RealDerivatives.


(** ** The surface grid and the gradient arrow *)

Section PlotFacts.
Context {T : Type} `{JsNumber T}.

(** Whatever the numbers are, a grid that is returned has its z-matrix
    made of [evaluate] at its own samples, row by row over y. *)
Lemma surface_z_is_evaluate (fuel : nat) (func : FunctionInstance T) (x0 y0 : T)
      (g : SurfaceData T) :
  generateSurfaceData fuel func x0 y0 = Some g ->
  surface_z g
  = map (fun yi => map (fun xi => evaluate func xi yi) (surface_x g)) (surface_y g).
Proof.
  unfold generateSurfaceData.
  destruct (sample_axis fuel _ _ _) as [xs |]; [| discriminate].
  destruct (sample_axis fuel _ _ _) as [ys |]; [| discriminate].
  intros [= <-]. reflexivity.
Qed.

(** What a finished loop has collected: every sample passed the test
    [i <= hi], and the first one, if there is one, is the start. *)
Lemma sample_axis_samples (hi step : T) (fuel : nat) :
  forall (i : T) (xs : list T),
    sample_axis fuel i hi step = Some xs ->
    Forall (fun x => num_leb x hi = true) xs /\ (xs = [] \/ hd_error xs = Some i).
Proof.
  induction fuel as [| fuel IH]; intros i xs Hxs; [discriminate |].
  cbn [sample_axis] in Hxs.
  destruct (num_leb i hi) eqn:Hle.
  - destruct (sample_axis fuel (num_add i step) hi step) as [tail |] eqn:Htail;
      [| discriminate].
    injection Hxs as <-.
    split; [constructor; [exact Hle | exact (proj1 (IH _ _ Htail))] | now right].
  - injection Hxs as <-. split; [constructor | now left].
Qed.

(** A loop whose counter passes the test and is not moved by the step never
    ends. *)
Lemma sample_axis_stuck (i hi step : T) (fuel : nat) :
  num_leb i hi = true -> num_add i step = i ->
  sample_axis fuel i hi step = None.
Proof.
  intros Hle Hadd. induction fuel as [| fuel IH]; [reflexivity |].
  cbn [sample_axis]. rewrite Hle, Hadd, IH. reflexivity.
Qed.

(** A loop that ended within [fuel] rounds gives the same samples with more. *)
Lemma sample_axis_more_fuel (hi step : T) (fuel : nat) :
  forall (i : T) (xs : list T) (fuel' : nat),
    sample_axis fuel i hi step = Some xs -> (fuel <= fuel')%nat ->
    sample_axis fuel' i hi step = Some xs.
Proof.
  induction fuel as [| fuel IH]; intros i xs fuel' Hxs Hle; [discriminate |].
  destruct fuel' as [| fuel']; [lia |].
  cbn [sample_axis] in *.
  destruct (num_leb i hi); [| exact Hxs].
  destruct (sample_axis fuel (num_add i step) hi step) as [tail |] eqn:Htail;
    [| discriminate].
  rewrite (IH _ _ fuel' Htail) by lia. exact Hxs.
Qed.

(** Whatever the numbers are, the arrow starts at [(x0, y0)] and both of its
    ends have the height [evaluate(x0, y0)]. *)
Lemma arrow_start_and_height (func : FunctionInstance T) (x0 y0 : T) :
  let g := generateGradientArrows func x0 y0 in
  hd_error (trace_x g) = Some x0 /\
  hd_error (trace_y g) = Some y0 /\
  trace_z g = [evaluate func x0 y0; evaluate func x0 y0].
Proof. repeat split. Qed.
(** Whatever the numbers are, the end of the arrow is the start moved by the
    scaled unit gradient when the test [magnitude > 0] succeeds, and by 0
    when it does not. *)
Lemma gradient_arrow_cases (func : FunctionInstance T) (x0 y0 : T) :
  let dfdx := partialXValue func x0 y0 in
  let dfdy := partialYValue func x0 y0 in
  let m := Math_sqrt (num_add (num_mul dfdx dfdx) (num_mul dfdy dfdy)) in
  let g := generateGradientArrows func x0 y0 in
  (num_ltb (num_of_Z 0) m = true /\
   trace_x g = [x0; num_add x0 (num_mul (num_div dfdx m) (num_dec 3 1))] /\
   trace_y g = [y0; num_add y0 (num_mul (num_div dfdy m) (num_dec 3 1))])
  \/
  (num_ltb (num_of_Z 0) m = false /\
   trace_x g = [x0; num_add x0 (num_of_Z 0)] /\
   trace_y g = [y0; num_add y0 (num_of_Z 0)]).
Proof.
  intros dfdx dfdy m g. unfold g, generateGradientArrows.
  fold dfdx dfdy. fold m. cbn [trace_x trace_y].
  destruct (num_ltb (num_of_Z 0) m); [left | right]; auto.
Qed.
End PlotFacts.

Section RealSampling.
Local Open Scope R_scope.

Lemma Rleb_true (a b : R) : a <= b -> Rleb a b = true.
Proof. intros Hab. unfold Rleb. destruct (Rle_dec a b); [reflexivity | contradiction]. Qed.

Lemma Rleb_false (a b : R) : b < a -> Rleb a b = false.
Proof. intros Hab. unfold Rleb. destruct (Rle_dec a b); [lra | reflexivity]. Qed.

Lemma Rltb_true (a b : R) : a < b -> Rltb a b = true.
Proof. intros Hab. unfold Rltb. destruct (Rlt_dec a b); [reflexivity | contradiction]. Qed.

Lemma Rltb_false (a b : R) : b <= a -> Rltb a b = false.
Proof. intros Hab. unfold Rltb. destruct (Rlt_dec a b); [lra | reflexivity]. Qed.

Lemma progression_S (i step : R) (m : nat) :
  progression i step (S m) = i :: progression (i + step) step m.
Proof.
  unfold progression. rewrite <- cons_seq, <- seq_shift. simpl map. rewrite map_map.
  f_equal.
  - simpl. ring.
  - apply map_ext. intros k. rewrite S_INR. ring.
Qed.

(** The loop stops after [m] rounds when the [m] first terms are within
    the bound and the next one is beyond it. *)
Lemma sample_axis_progression (hi step : R) (m : nat) :
  forall (fuel : nat) (i : R),
    (m < fuel)%nat ->
    (forall k, (k < m)%nat -> i + INR k * step <= hi) ->
    hi < i + INR m * step ->
    sample_axis fuel i hi step = Some (progression i step m).
Proof.
  induction m as [| m IH]; intros fuel i Hfuel Hin Hout.
  - destruct fuel as [| fuel]; [lia |]. simpl.
    rewrite Rleb_false; [reflexivity |]. simpl in Hout. lra.
  - destruct fuel as [| fuel]; [lia |]. simpl.
    rewrite Rleb_true.
    + rewrite (IH fuel (i + step)).
      * now rewrite progression_S.
      * lia.
      * intros k Hk. specialize (Hin (S k) ltac:(lia)).
        rewrite S_INR in Hin. lra.
      * rewrite S_INR in Hout. lra.
    + specialize (Hin 0%nat ltac:(lia)). simpl in Hin. lra.
Qed.

Lemma INR_le_33 (k : nat) : (k < 34)%nat -> INR k <= 33.
Proof.
  intros Hk. replace 33 with (INR 33) by (simpl; lra).
  apply le_INR. lia.
Qed.

(** One axis of the grid: 34 samples, [c - 5], [c - 4.7], ..., [c + 4.9]. *)
Lemma sample_axis_window (fuel : nat) (c : R) :
  (34 < fuel)%nat ->
  sample_axis fuel (c - 5) (c + 5) (3 / 10) = Some (progression (c - 5) (3 / 10) 34).
Proof.
  intros Hfuel. apply sample_axis_progression.
  - exact Hfuel.
  - intros k Hk. pose proof (INR_le_33 k Hk). pose proof (pos_INR k). lra.
  - replace (INR 34) with 34 by (simpl; lra). lra.
Qed.

Lemma nth_map_lt {A B : Type} (f : A -> B) (l : list A) (d : B) (d' : A) :
  forall k, (k < List.length l)%nat -> nth k (map f l) d = f (nth k l d').
Proof.
  induction l as [| a l IH]; intros [| k] Hk; simpl in *; try lia; auto.
  apply IH. lia.
Qed.

Lemma progression_length (i step : R) (m : nat) : List.length (progression i step m) = m.
Proof. unfold progression. now rewrite length_map, length_seq. Qed.

Lemma progression_nth (i step : R) (m k : nat) :
  (k < m)%nat -> nth k (progression i step m) 0 = i + INR k * step.
Proof.
  intros Hk. unfold progression.
  rewrite (nth_map_lt _ _ _ 0%nat) by now rewrite length_seq.
  now rewrite seq_nth.
Qed.

Lemma grid_entry (f : R -> R -> R) (xs ys : list R) (i j : nat) :
  (i < List.length ys)%nat -> (j < List.length xs)%nat ->
  nth j (nth i (map (fun yi => map (fun xi => f xi yi) xs) ys) []) 0
  = f (nth j xs 0) (nth i ys 0).
Proof.
  intros Hi Hj.
  rewrite (nth_map_lt _ _ _ 0) by exact Hi.
  now rewrite (nth_map_lt _ _ _ 0).
Qed.

(** The grid over the reals, for every instance and every center. *)
Lemma surface_grid_real (func : FunctionInstance R) (x0 y0 : R) (fuel : nat) :
  (34 < fuel)%nat ->
  exists g : SurfaceData R,
    generateSurfaceData fuel func x0 y0 = Some g /\
    List.length (surface_x g) = 34%nat /\
    List.length (surface_y g) = 34%nat /\
    (forall k, (k < 34)%nat -> nth k (surface_x g) 0 = x0 - 5 + INR k * (3 / 10)) /\
    (forall k, (k < 34)%nat -> nth k (surface_y g) 0 = y0 - 5 + INR k * (3 / 10)) /\
    Rabs (nth 0 (surface_x g) 0 - (x0 - 5)) < 3 / 10 /\
    Rabs (last (surface_x g) 0 - (x0 + 5)) < 3 / 10 /\
    Rabs (nth 0 (surface_y g) 0 - (y0 - 5)) < 3 / 10 /\
    Rabs (last (surface_y g) 0 - (y0 + 5)) < 3 / 10 /\
    List.length (surface_z g) = List.length (surface_y g) /\
    (forall row, In row (surface_z g) -> List.length row = List.length (surface_x g)) /\
    (forall i j, (i < List.length (surface_y g))%nat -> (j < List.length (surface_x g))%nat ->
       nth j (nth i (surface_z g) []) 0
       = evaluate func (nth j (surface_x g) 0) (nth i (surface_y g) 0)).
Proof.
  intros Hfuel. unfold generateSurfaceData. cbn.
  replace (3 / (10 * 1)) with (3 / 10) by (f_equal; ring).
  rewrite !sample_axis_window by exact Hfuel.
  eexists. split; [reflexivity |]. cbn [surface_x surface_y surface_z].
  assert (Hlast : forall c, last (progression (c - 5) (3 / 10) 34) 0 = c + 49 / 10).
  { intros c. cbn. lra. }
  repeat match goal with |- _ /\ _ => split end.
  - apply progression_length.
  - apply progression_length.
  - intros k Hk. now apply progression_nth.
  - intros k Hk. now apply progression_nth.
  - rewrite progression_nth by lia. cbn. rewrite Rabs_pos_eq; lra.
  - rewrite Hlast. rewrite Rabs_left; lra.
  - rewrite progression_nth by lia. cbn. rewrite Rabs_pos_eq; lra.
  - rewrite Hlast. rewrite Rabs_left; lra.
  - now rewrite length_map.
  - intros row Hrow. apply in_map_iff in Hrow. destruct Hrow as (yi & <- & _).
    now rewrite length_map.
  - intros i j Hi Hj. now apply grid_entry.
Qed.

(** The arrow over the reals. *)
Lemma gradient_arrow_real (func : FunctionInstance R) (x0 y0 : R) :
  let dfdx := partialXValue func x0 y0 in
  let dfdy := partialYValue func x0 y0 in
  let z0 := evaluate func x0 y0 in
  let m := sqrt (dfdx * dfdx + dfdy * dfdy) in
  let g := generateGradientArrows func x0 y0 in
  trace_z g = [z0; z0] /\
  ((0 < m /\
    trace_x g = [x0; x0 + dfdx / m * (3 / 10)] /\
    trace_y g = [y0; y0 + dfdy / m * (3 / 10)])
   \/
   (m = 0 /\ trace_x g = [x0; x0] /\ trace_y g = [y0; y0])).
Proof.
  intros dfdx dfdy z0 m g. split; [reflexivity |].
  unfold g, generateGradientArrows. cbn.
  fold dfdx dfdy. fold m.
  replace (3 / (10 * 1)) with (3 / 10) by (f_equal; ring).
  destruct (Rle_lt_or_eq_dec 0 m (sqrt_pos _)) as [Hpos | Hzero].
  - left. rewrite Rltb_true by exact Hpos. auto.
  - right. rewrite Rltb_false by lra.
    rewrite !Rplus_0_r. auto.
Qed.
End RealSampling.

Section Binary64Plot.
Context `{MathEngine}.

(** One axis in binary64 around a whole center of the practice range. *)
Lemma sample_axis_practice_range (c : Z) (fuel : nat) :
  (-3 <= c <= 3)%Z -> (34 < fuel)%nat ->
  exists xs,
    sample_axis fuel (num_sub (float_of_Z c) (num_of_Z 5))
      (num_add (float_of_Z c) (num_of_Z 5)) (num_dec 3 1) = Some xs /\
    axis_in_window c xs.
Proof.
  intros Hc Hfuel.
  assert (Hcases : In c [-3; -2; -1; 0; 1; 2; 3]%Z) by (simpl; lia).
  assert (H35 : exists xs,
             sample_axis 35 (num_sub (float_of_Z c) (num_of_Z 5))
               (num_add (float_of_Z c) (num_of_Z 5)) (num_dec 3 1) = Some xs /\
             axis_in_window c xs).
  { simpl in Hcases.
    repeat (destruct Hcases as [<- | Hcases];
            [eexists; split; [vm_compute; reflexivity | repeat split] |]).
    contradiction. }
  destruct H35 as (xs & Hxs & Hwin). exists xs. split; [| exact Hwin].
  apply (sample_axis_more_fuel _ _ 35); [exact Hxs | lia].
Qed.

(** The grid in binary64 around a point of the practice range. *)
Lemma surface_grid_binary64_practice_range
      (func : FunctionInstance float) (x0 y0 : Z) (fuel : nat) :
  (-3 <= x0 <= 3)%Z -> (-3 <= y0 <= 3)%Z -> (34 < fuel)%nat ->
  exists g : SurfaceData float,
    generateSurfaceData fuel func (float_of_Z x0) (float_of_Z y0) = Some g /\
    axis_in_window x0 (surface_x g) /\
    axis_in_window y0 (surface_y g) /\
    surface_z g
    = map (fun yi => map (fun xi => evaluate func xi yi) (surface_x g)) (surface_y g).
Proof.
  intros Hx Hy Hfuel.
  destruct (sample_axis_practice_range x0 fuel Hx Hfuel) as (xs & Hxs & Hwx).
  destruct (sample_axis_practice_range y0 fuel Hy Hfuel) as (ys & Hys & Hwy).
  unfold generateSurfaceData. rewrite Hxs, Hys.
  eexists. split; [reflexivity |]. cbn [surface_x surface_y surface_z]. auto.
Qed.

(** What the binary64 grid holds whenever the loops end, for every center. *)
Lemma surface_grid_binary64_samples
      (func : FunctionInstance float) (x0 y0 : float) (fuel : nat) (g : SurfaceData float) :
  generateSurfaceData fuel func x0 y0 = Some g ->
  Forall (fun x => PrimFloat.leb x (x0 + 5) = true) (surface_x g) /\
  (surface_x g = [] \/ hd_error (surface_x g) = Some (x0 - 5)%float) /\
  Forall (fun y => PrimFloat.leb y (y0 + 5) = true) (surface_y g) /\
  (surface_y g = [] \/ hd_error (surface_y g) = Some (y0 - 5)%float) /\
  surface_z g
  = map (fun yi => map (fun xi => evaluate func xi yi) (surface_x g)) (surface_y g).
Proof.
  unfold generateSurfaceData. intros Hg.
  destruct (sample_axis fuel (num_sub x0 (num_of_Z 5)) (num_add x0 (num_of_Z 5)) (num_dec 3 1))
    as [xs |] eqn:Hxs; [| discriminate].
  destruct (sample_axis fuel (num_sub y0 (num_of_Z 5)) (num_add y0 (num_of_Z 5)) (num_dec 3 1))
    as [ys |] eqn:Hys; [| discriminate].
  injection Hg as <-. cbn [surface_x surface_y surface_z].
  destruct (sample_axis_samples _ _ _ _ _ Hxs) as [Hfx Hhx].
  destruct (sample_axis_samples _ _ _ _ _ Hys) as [Hfy Hhy].
  repeat split; assumption.
Qed.

(** Far from the practice range the binary64 loop does not advance: at the
    center 1e17 both [x0 - 5] and [x0 + 5] round to [x0], adding 0.3 changes
    nothing, and no number of rounds ends the loop.  The same holds at the
    center [Infinity]. *)
Lemma sample_axis_stalls (fuel : nat) :
  sample_axis fuel 1e17%float 1e17%float (float_of_dec 3 1) = None.
Proof. now apply sample_axis_stuck. Qed.

Lemma generateSurfaceData_stalls (fuel : nat) (func : FunctionInstance float) (y0 : float) :
  generateSurfaceData fuel func 1e17%float y0 = None.
Proof.
  unfold generateSurfaceData.
  change (num_sub 1e17%float (num_of_Z 5)) with 1e17%float.
  change (num_add 1e17%float (num_of_Z 5)) with 1e17%float.
  change (num_dec 3 1) with (float_of_dec 3 1).
  now rewrite sample_axis_stalls.
Qed.

Lemma generateSurfaceData_stalls_at_infinity
      (fuel : nat) (func : FunctionInstance float) (y0 : float) :
  generateSurfaceData fuel func infinity y0 = None.
Proof.
  unfold generateSurfaceData.
  change (num_sub infinity (num_of_Z 5)) with infinity.
  change (num_add infinity (num_of_Z 5)) with infinity.
  now rewrite (sample_axis_stuck infinity infinity (num_dec 3 1) fuel).
Qed.
End Binary64Plot.

(** C7.  With half-range 5 and step 0.3 the sampler takes no random source,
    and in binary64, the numbers of the program, it does this.  Around a
    center of the practice range (whole coordinates in [-3, 3], as
    [randomPoint] yields) it returns a grid with 34 x-samples, the first
    exactly [x0 - 5] and the last within one step of [x0 + 5], the same for
    y, and a z-matrix with one row per y-sample and one column per x-sample
    whose entries are [evaluate] at the samples.  Around any center, a grid
    that is returned starts at [x0 - 5] and [y0 - 5], holds no sample above
    [x0 + 5] or [y0 + 5], and has that z-matrix.  But a grid is not returned
    around every center: at the center 1e17, which the x field of the page
    accepts, [x0 - 5] and [x0 + 5] both round to [x0], adding 0.3 to the
    loop counter leaves it where it is, and the loop never ends; the same at
    the center [Infinity].  [fuel] bounds the rounds of the two loops. *)
Theorem surface_grid :
  (forall (engine : MathEngine) (func : FunctionInstance float) (x0 y0 : Z) (fuel : nat),
      (-3 <= x0 <= 3)%Z -> (-3 <= y0 <= 3)%Z -> (34 < fuel)%nat ->
      exists g : SurfaceData float,
        generateSurfaceData fuel func (float_of_Z x0) (float_of_Z y0) = Some g /\
        axis_in_window x0 (surface_x g) /\
        axis_in_window y0 (surface_y g) /\
        surface_z g
        = map (fun yi => map (fun xi => evaluate func xi yi) (surface_x g)) (surface_y g)) /\
  (forall (engine : MathEngine) (func : FunctionInstance float) (x0 y0 : float)
          (fuel : nat) (g : SurfaceData float),
      generateSurfaceData fuel func x0 y0 = Some g ->
      Forall (fun x => PrimFloat.leb x (x0 + 5) = true) (surface_x g) /\
      (surface_x g = [] \/ hd_error (surface_x g) = Some (x0 - 5)%float) /\
      Forall (fun y => PrimFloat.leb y (y0 + 5) = true) (surface_y g) /\
      (surface_y g = [] \/ hd_error (surface_y g) = Some (y0 - 5)%float) /\
      surface_z g
      = map (fun yi => map (fun xi => evaluate func xi yi) (surface_x g)) (surface_y g)) /\
  (forall (engine : MathEngine) (func : FunctionInstance float) (y0 : float) (fuel : nat),
      generateSurfaceData fuel func 1e17%float y0 = None /\
      generateSurfaceData fuel func infinity y0 = None).
Proof.
  split; [| split].
  - intros engine func x0 y0 fuel Hx Hy Hfuel.
    now apply surface_grid_binary64_practice_range.
  - intros engine func x0 y0 fuel g. apply surface_grid_binary64_samples.
  - intros engine func y0 fuel. split.
    + apply generateSurfaceData_stalls.
    + apply generateSurfaceData_stalls_at_infinity.
Qed.

(** C8.  The arrow starts at [(x0, y0, z0)] with [z0 = evaluate(x0, y0)]
    and keeps the height [z0] at its end.  With [m] the magnitude of the
    gradient, either [m > 0] and the end is the start moved by
    [(dfdx / m, dfdy / m) * 0.3] in the plane, or [m = 0] and the end is
    the start.  This is stated over the reals; in binary64 the same two
    cases are told apart by the test [m > 0] of the code, and in the second
    the end is the start plus 0. *)
Theorem gradient_arrow :
  (forall (func : FunctionInstance R) (x0 y0 : R),
      let dfdx := partialXValue func x0 y0 in
      let dfdy := partialYValue func x0 y0 in
      let z0 := evaluate func x0 y0 in
      let m := sqrt (dfdx * dfdx + dfdy * dfdy) in
      let g := generateGradientArrows func x0 y0 in
      trace_z g = [z0; z0] /\
      ((0 < m /\
        trace_x g = [x0; x0 + dfdx / m * (3 / 10)] /\
        trace_y g = [y0; y0 + dfdy / m * (3 / 10)])
       \/
       (m = 0 /\ trace_x g = [x0; x0] /\ trace_y g = [y0; y0])))%R /\
  (forall (engine : MathEngine) (func : FunctionInstance float) (x0 y0 : float),
      let dfdx := partialXValue func x0 y0 in
      let dfdy := partialYValue func x0 y0 in
      let z0 := evaluate func x0 y0 in
      let m := PrimFloat.sqrt (PrimFloat.add (PrimFloat.mul dfdx dfdx) (PrimFloat.mul dfdy dfdy)) in
      let g := generateGradientArrows func x0 y0 in
      trace_z g = [z0; z0] /\
      ((PrimFloat.ltb 0 m = true /\
        trace_x g = [x0; PrimFloat.add x0 (PrimFloat.mul (PrimFloat.div dfdx m) (float_of_dec 3 1))] /\
        trace_y g = [y0; PrimFloat.add y0 (PrimFloat.mul (PrimFloat.div dfdy m) (float_of_dec 3 1))])
       \/
       (PrimFloat.ltb 0 m = false /\
        trace_x g = [x0; PrimFloat.add x0 0] /\
        trace_y g = [y0; PrimFloat.add y0 0]))).
Proof.
  split.
  - intros func x0 y0. apply gradient_arrow_real.
  - intros engine func x0 y0. cbv zeta. split; [reflexivity |].
    exact (gradient_arrow_cases func x0 y0).
Qed.

(** ** Binary64 facts *)

Lemma not_finite_never_close (u c t : float) :
  not_finite u -> PrimFloat.ltb (PrimFloat.abs (PrimFloat.sub u c)) t = false.
Proof.
  intros Hu. rewrite ltb_spec, abs_spec, sub_spec.
  destruct Hu as [-> | [s ->]].
  - reflexivity.
  - unfold SF64sub. destruct (Prim2SF c) as [sc | sc | | sc mc ec];
      destruct s; try destruct sc; cbn;
      destruct (Prim2SF t) as [st | st | | st mt et]; try destruct st; reflexivity.
Qed.


Lemma infinity_not_finite : not_finite infinity.
Proof. right. eexists. reflexivity. Qed.

Lemma SFcompare_refl (x : spec_float) : x <> S754_nan -> SFcompare x x = Some Eq.
Proof.
  destruct x as [s | s | | s m e]; intros Hx; try congruence; cbn.
  - reflexivity.
  - destruct s; reflexivity.
  - rewrite Z.compare_refl, Pos.compare_cont_refl. destruct s; reflexivity.
Qed.

Lemma isNaN_true (v : value) : isNaN v = true <-> Prim2SF (ToNumber v) = S754_nan.
Proof.
  unfold isNaN. rewrite negb_true_iff, FloatAxioms.eqb_spec. unfold SFeqb.
  split.
  - intros Hc. destruct (Prim2SF (ToNumber v)) eqn:Hv; try reflexivity;
      rewrite SFcompare_refl in Hc by congruence; discriminate.
  - intros ->. reflexivity.
Qed.

(** The literals of the source are the values the model computes with. *)
Lemma literal_values :
  float_of_dec 5 2 = 0x1.999999999999ap-5%float /\
  float_of_dec 1 2 = 0x1.47ae147ae147bp-7%float /\
  float_of_dec 3 1 = 0x1.3333333333333p-2%float.
Proof. repeat split; reflexivity. Qed.

(** ** Text replacement *)

Section ReplaceFacts.
Variable c : ascii.
Local Open Scope string_scope.

Lemma replace_from_match (pat rep : string) (a : ascii) (s : string) :
  replace_from pat rep 0 (String a s) =
  if String.prefix pat (String a s)
  then rep ++ replace_from pat rep (String.length pat - 1) s
  else String a (replace_from pat rep 0 s).
Proof. reflexivity. Qed.

Lemma replace_from_skip (pat rep : string) (k : nat) (a : ascii) (s : string) :
  replace_from pat rep (S k) (String a s) = replace_from pat rep k s.
Proof. reflexivity. Qed.

Lemma occurs_append (s t : string) : occurs c (s ++ t) = occurs c s || occurs c t.
Proof.
  induction s as [| a s IH]; simpl; [reflexivity |].
  now rewrite IH, orb_assoc.
Qed.

(** A replacement that does not bring [c] in cannot make it occur. *)
Lemma replace_from_free (pat rep : string) :
  occurs c rep = false ->
  forall (s : string) (skip : nat),
    occurs c s = false -> occurs c (replace_from pat rep skip s) = false.
Proof.
  intros Hrep. induction s as [| a s IH]; intros skip Hs; [reflexivity |].
  simpl in Hs. apply orb_false_iff in Hs. destruct Hs as [Ha Hs].
  destruct skip as [| k].
  - rewrite replace_from_match. destruct (String.prefix pat (String a s)).
    + rewrite occurs_append, Hrep. now apply IH.
    + simpl. rewrite Ha. now apply IH.
  - rewrite replace_from_skip. now apply IH.
Qed.

(** Replacing the character [c] itself removes every occurrence of it. *)
Lemma replace_char_removes (rep : string) :
  occurs c rep = false ->
  forall s : string, occurs c (replace_from (String c EmptyString) rep 0 s) = false.
Proof.
  intros Hrep. induction s as [| a s IH]; [reflexivity |].
  rewrite replace_from_match. simpl String.prefix. simpl String.length.
  destruct (ascii_dec c a) as [<- | Hca].
  - replace (String.prefix "" s) with true by (destruct s; reflexivity).
    rewrite occurs_append, Hrep. exact IH.
  - simpl. rewrite IH, orb_false_r. now apply Ascii.eqb_neq.
Qed.

Lemma prefix_occurs (pat : string) :
  occurs c pat = true ->
  forall s : string, String.prefix pat s = true -> occurs c s = true.
Proof.
  induction pat as [| p pat IH]; intros Hpat s Hpre; [discriminate |].
  destruct s as [| a s]; [discriminate |].
  simpl in Hpat, Hpre.
  destruct (ascii_dec p a) as [<- | _]; [| discriminate].
  simpl. apply orb_true_iff in Hpat. destruct Hpat as [-> | Hpat]; [reflexivity |].
  rewrite (IH Hpat s Hpre). apply orb_true_r.
Qed.

(** A pattern with [c] in it matches nowhere in a text without [c]. *)
Lemma replace_from_absent (pat rep : string) :
  occurs c pat = true ->
  forall s : string, occurs c s = false -> replace_from pat rep 0 s = s.
Proof.
  intros Hpat. induction s as [| a s IH]; intros Hs; [reflexivity |].
  rewrite replace_from_match.
  destruct (String.prefix pat (String a s)) eqn:Hpre.
  - rewrite (prefix_occurs pat Hpat _ Hpre) in Hs. discriminate.
  - simpl in Hs. apply orb_false_iff in Hs. destruct Hs as [_ Hs].
    now rewrite IH.
Qed.
End ReplaceFacts.

Lemma digit_char_not_x (d : Z) : (0 <= d < 10)%Z -> Ascii.eqb "x" (digit_char d) = false.
Proof.
  intros Hd.
  assert (Hcases : In d [0; 1; 2; 3; 4; 5; 6; 7; 8; 9]%Z) by (simpl; lia).
  simpl in Hcases. intuition (subst; reflexivity).
Qed.

Lemma show_pos_fuel_no_x (fuel : nat) :
  forall (n : Z) (acc : string),
    occurs "x" acc = false -> occurs "x" (show_pos_fuel fuel n acc) = false.
Proof.
  induction fuel as [| fuel IH]; intros n acc Hacc; simpl; [exact Hacc |].
  assert (Hhead : occurs "x" (String (digit_char (n mod 10)) acc) = false).
  { cbn [occurs]. rewrite Hacc, orb_false_r. apply digit_char_not_x.
    apply Z.mod_pos_bound. lia. }
  destruct (n <? 10)%Z; [exact Hhead | now apply IH].
Qed.

Lemma show_Z_no_x (n : Z) : occurs "x" (show_Z n) = false.
Proof.
  destruct n as [| p | p]; unfold show_Z.
  - reflexivity.
  - now apply show_pos_fuel_no_x.
  - cbn [occurs]. rewrite show_pos_fuel_no_x by reflexivity. reflexivity.
Qed.

Lemma substitute_up_to_sqrt_no_x (expr : string) (x y : Z) :
  occurs "x" (substitute_up_to_sqrt expr x y) = false.
Proof.
  unfold substitute_up_to_sqrt, replace_all.
  repeat (apply replace_from_free; [reflexivity |]).
  apply replace_from_free.
  - rewrite occurs_append. simpl. rewrite occurs_append, show_Z_no_x. reflexivity.
  - apply replace_char_removes.
    simpl. rewrite occurs_append, show_Z_no_x. reflexivity.
Qed.

(** The text that reaches the replacement of [exp] has no [x] left, so
    that replacement changes nothing, whatever the learner typed. *)
Lemma exp_replacement_never_fires (expr : string) (x y : Z) :
  replace_all "exp" "Math.exp" (substitute_up_to_sqrt expr x y)
  = substitute_up_to_sqrt expr x y.
Proof.
  apply (replace_from_absent "x"); [reflexivity |].
  apply substitute_up_to_sqrt_no_x.
Qed.

(** ** The expression evaluator *)

Section EvaluatorFacts.
Context `{MathEngine}.
Local Open Scope string_scope.



(** The names without [x], [y] or [e] in them reach the engine whole. *)
Lemma substitute_keeps_sin_cos_tan_sqrt_abs :
  substitute "sin(x)" 0 0 = "Math.sin((0))" /\
  substitute "cos(y)" 0 0 = "Math.cos((0))" /\
  substitute "tan(x)" 0 0 = "Math.tan((0))" /\
  substitute "sqrt(x)" 4 0 = "Math.sqrt((4))" /\
  substitute "abs(y)" 0 (-2) = "Math.abs((-2))".
Proof. repeat split; reflexivity. Qed.

(** C2.  What the code does at the inputs of the claim.  The replacements
    work on the text, not on tokens: in ["exp(x)"] the [x] of [exp] becomes
    [(0)] and its [e] becomes [2.718281828459045] before the replacement of
    [exp] is tried, the engine rejects the text with a [SyntaxError], and
    the result is [NaN], not 1.  For no text and no point does the
    replacement of [exp] find anything to replace.  ["2*x+3*y"] at x = 1,
    y = 2 is 8. *)
Theorem exp_is_corrupted_by_substitution :
  substitute "exp(x)" 0 0 = "2.718281828459045(0)p((0))" /\
  evaluateExpression "exp(x)" 0 0 = Some (VNum nan, [JsSyntaxError]) /\
  (forall expr x y,
      replace_all "exp" "Math.exp" (substitute_up_to_sqrt expr x y)
      = substitute_up_to_sqrt expr x y) /\
  evaluateExpression "2*x+3*y" 1 2 = Some (VNum 8, []).
Proof.
  split; [reflexivity |]. split; [reflexivity |].
  split; [exact exp_replacement_never_fires | reflexivity].
Qed.

(** The evaluation of an arithmetic expression does not throw and does not
    leave the fragment: it is the value of binary64 arithmetic. *)
Lemma eval_arithmetic (e : expr) :
  arithmetic e = true -> eval e = Normal (VNum (ieee_value e)).
Proof.
  induction e as [v | name | f | callee IHc | callee IHc arg IHa | e1 IH | e1 IH
                  | op l IHl r IHr]; cbn [arithmetic]; intros Ha; try discriminate.
  - reflexivity.
  - destruct callee; try discriminate. cbn [eval and_then ieee_value].
    rewrite (IHa Ha). reflexivity.
  - cbn [eval ieee_value]. rewrite (IH Ha). reflexivity.
  - cbn [eval ieee_value]. rewrite (IH Ha). reflexivity.
  - apply andb_true_iff in Ha. destruct Ha as [Hl Hr].
    cbn [eval ieee_value]. rewrite (IHl Hl), (IHr Hr).
    destruct op; reflexivity.
Qed.

(** A division by a zero gives an infinity or [NaN], and the square root
    of a negative number gives [NaN]: neither is a finite number. *)
Lemma division_by_zero_not_finite (a b : float) (s : bool) :
  Prim2SF b = S754_zero s -> not_finite (PrimFloat.div a b).
Proof.
  intros Hb. unfold not_finite. rewrite div_spec, Hb. unfold SF64div, SFdiv.
  destruct (Prim2SF a) as [sa | sa | | sa ma ea].
  - now left.
  - right. eexists. reflexivity.
  - now left.
  - right. eexists. reflexivity.
Qed.

Lemma sqrt_of_negative_not_finite (a : float) :
  PrimFloat.ltb a 0 = true -> not_finite (PrimFloat.sqrt a).
Proof.
  intros Ha. unfold not_finite. rewrite sqrt_spec.
  rewrite ltb_spec in Ha. change (Prim2SF 0) with (S754_zero false) in Ha.
  destruct (Prim2SF a) as [sa | sa | | sa ma ea]; try discriminate.
  - destruct sa; [now left | discriminate].
  - destruct sa; [now left | discriminate].
Qed.

(** C3, as amended.  There is no domain failure.  Whenever the engine reads
    the substituted text as an expression of arithmetic, the result is what
    binary64 arithmetic gives, whether it is defined mathematically or not,
    with nothing thrown and nothing logged.  A division by a zero is
    returned as an infinity or [NaN] and the square root of a negative
    number as [NaN]: ["1/x"] at x = 0 is [Infinity] and ["sqrt(x)"] at
    x = -4 is [NaN], both returned as values.  The malformed ["sin("] is a
    [SyntaxError] of the engine, which is caught and logged, and [NaN] is
    returned. *)
Theorem undefined_results_are_returned :
  (forall e, arithmetic e = true -> eval e = Normal (VNum (ieee_value e))) /\
  (forall text x y ts e,
      lex 0 ("(" ++ substitute text x y ++ ")") = Some ts ->
      parse_program ts = Normal e ->
      arithmetic e = true ->
      evaluateExpression text x y = Some (VNum (ieee_value e), [])) /\
  (forall l r s,
      arithmetic l = true -> arithmetic r = true ->
      Prim2SF (ieee_value r) = S754_zero s ->
      exists v, eval (EBin Div l r) = Normal (VNum v) /\ not_finite v) /\
  (forall a,
      arithmetic a = true -> PrimFloat.ltb (ieee_value a) 0 = true ->
      exists v, eval (ECall1 (EMath Fsqrt) a) = Normal (VNum v) /\ not_finite v) /\
  evaluateExpression "1/x" 0 0 = Some (VNum infinity, []) /\
  evaluateExpression "sqrt(x)" (-4) 0 = Some (VNum nan, []) /\
  evaluateExpression "x/y" 0 0 = Some (VNum nan, []) /\
  (forall x y, evaluateExpression "sin(" x y = Some (VNum nan, [JsSyntaxError])).
Proof.
  split; [exact eval_arithmetic |]. split; [| split; [| split]].
  - intros text x y ts e Hlex Hparse Ha.
    unfold evaluateExpression, js_Function_return.
    rewrite Hlex, Hparse. cbn [and_then]. now rewrite (eval_arithmetic e Ha).
  - intros l r s Hl Hr Hz. eexists. split.
    + apply eval_arithmetic. cbn [arithmetic]. now rewrite Hl, Hr.
    + cbn [ieee_value]. exact (division_by_zero_not_finite _ _ s Hz).
  - intros a Ha Hneg. eexists. split.
    + apply eval_arithmetic. exact Ha.
    + cbn [ieee_value apply_math]. now apply sqrt_of_negative_not_finite.
  - repeat split; reflexivity.
Qed.

End EvaluatorFacts.

(** C3, the claim at its own input: ["1/x"] at x = 0 does not fail; the
    engine returns [Infinity] and the evaluator passes it on with nothing
    logged. *)
Lemma division_by_zero_is_not_an_error :
  js_Function_return (H := sample_engine) (substitute "1/x" 0 0) = Normal (VNum infinity) /\
  evaluateExpression (H := sample_engine) "1/x" 0 0 = Some (VNum infinity, []).
Proof. split; reflexivity. Qed.

(** ** Grading *)

Section GradingFacts.
Context `{MathEngine}.


(** [checkAnswer] on a state with a question and two non-empty fields whose
    texts are in the fragment: the outcome, spelled out. *)
Lemma checkAnswer_graded (st : State) (q : Question) (userDfDx userDfDy : string)
      (vx vy : value) (lx ly : list js_error) :
  currentQuestion st = Some q ->
  is_empty userDfDx = false ->
  is_empty userDfDy = false ->
  evaluateExpression userDfDx (px (point q)) (py (point q)) = Some (vx, lx) ->
  evaluateExpression userDfDy (px (point q)) (py (point q)) = Some (vy, ly) ->
  let cx := partialXValue (func q) (float_of_Z (px (point q))) (float_of_Z (py (point q))) in
  let cy := partialYValue (func q) (float_of_Z (px (point q))) (float_of_Z (py (point q))) in
  let okx := within_tolerance vx cx in
  let oky := within_tolerance vy cy in
  checkAnswer st userDfDx userDfDy =
  Graded
    {| currentFunction := currentFunction st;
       currentPoint := currentPoint st;
       currentQuestion := Some (graded_question q (okx && oky));
       stats := {| stats_correct :=
                     if okx && oky then S (stats_correct (stats st))
                     else stats_correct (stats st);
                   stats_attempted := S (stats_attempted (stats st)) |} |}
    {| dfdxCorrect := okx; dfdyCorrect := oky; allCorrect := okx && oky;
       correctDfDx := cx; correctDfDy := cy |}
    (lx ++ ly).
Proof.
  intros Hq Hx Hy Hvx Hvy. unfold checkAnswer.
  rewrite Hx, Hy, Hq. simpl. rewrite Hvx, Hvy. reflexivity.
Qed.

(** C4, as amended.  [checkAnswer], the grading the program runs,
    evaluates each of the learner's two texts at the question's own point,
    declares it matching exactly when the absolute difference to the
    analytic value is below 0.05, marks the question correct exactly when
    both match, and records that verdict on the question.  The helper
    [compareAnswers], which nothing calls, works otherwise: it evaluates
    both of its texts at x = 1, y = 1, rejects a [NaN] on either side, and
    its tolerance is 0.01 unless one is given. *)
Theorem checkAnswer_grades_at_the_question_point
      (st : State) (q : Question) (userDfDx userDfDy : string) :
  currentQuestion st = Some q ->
  is_empty userDfDx = false ->
  is_empty userDfDy = false ->
  let pt := point q in
  let cx := partialXValue (func q) (float_of_Z (px pt)) (float_of_Z (py pt)) in
  let cy := partialYValue (func q) (float_of_Z (px pt)) (float_of_Z (py pt)) in
  match checkAnswer st userDfDx userDfDy with
  | Graded st' fb _ =>
      AnswerChecker_check userDfDx pt cx 0x1.999999999999ap-5 = Some (dfdxCorrect fb) /\
      AnswerChecker_check userDfDy pt cy 0x1.999999999999ap-5 = Some (dfdyCorrect fb) /\
      allCorrect fb = dfdxCorrect fb && dfdyCorrect fb /\
      currentQuestion st' = Some (graded_question q (allCorrect fb))
  | OutsideFragment =>
      AnswerChecker_check userDfDx pt cx 0x1.999999999999ap-5 = None \/
      AnswerChecker_check userDfDy pt cy 0x1.999999999999ap-5 = None
  | Alerted _ | Uncaught _ => False
  end /\
  (forall u c tol vu lu vc lc,
      evaluateExpression u 1 1 = Some (vu, lu) ->
      evaluateExpression c 1 1 = Some (vc, lc) ->
      compareAnswers u c tol =
      Some (negb (isNaN vu || isNaN vc) &&
            PrimFloat.ltb (PrimFloat.abs (PrimFloat.sub (ToNumber vu) (ToNumber vc)))
              (match tol with Some t => t | None => 0x1.47ae147ae147bp-7%float end),
            lu ++ lc)).
Proof.
  intros Hq Hx Hy pt cx cy. split.
  - unfold AnswerChecker_check. fold pt.
    destruct (evaluateExpression userDfDx (px pt) (py pt)) as [[vx lx] |] eqn:Hvx.
    + destruct (evaluateExpression userDfDy (px pt) (py pt)) as [[vy ly] |] eqn:Hvy.
      * rewrite (checkAnswer_graded st q userDfDx userDfDy vx vy lx ly Hq Hx Hy Hvx Hvy).
        cbn [dfdxCorrect dfdyCorrect allCorrect currentQuestion].
        repeat split; reflexivity.
      * unfold checkAnswer. rewrite Hx, Hy, Hq. simpl. fold pt.
        rewrite Hvx, Hvy. now right.
    + unfold checkAnswer. rewrite Hx, Hy, Hq. simpl. fold pt.
      rewrite Hvx. now left.
  - intros u c tol vu lu vc lc Hu Hc. unfold compareAnswers.
    rewrite Hu, Hc.
    destruct (isNaN vu || isNaN vc); destruct tol; reflexivity.
Qed.



End GradingFacts.

(** ** The statements at concrete inputs *)

(** The learner answers ["4"] and ["2"] to the saddle question: both match. *)
Lemma checkAnswer_grades_at_the_question_point_witness :
  currentQuestion saddle_state = Some saddle_question /\
  is_empty "4" = false /\
  is_empty "2" = false /\
  AnswerChecker_check (H := sample_engine) "4" (point saddle_question)
    4%float 0x1.999999999999ap-5 = Some true /\
  match checkAnswer (H := sample_engine) saddle_state "4" "2" with
  | Graded st' fb _ =>
      dfdxCorrect fb = true /\ dfdyCorrect fb = true /\ allCorrect fb = true /\
      currentQuestion st' = Some (graded_question saddle_question true)
  | _ => False
  end.
Proof.
  pose proof (checkAnswer_grades_at_the_question_point (H := sample_engine)
                saddle_state saddle_question "4" "2" eq_refl eq_refl eq_refl) as Hthm.
  cbv zeta in Hthm. destruct Hthm as [Hmain _].
  repeat split; reflexivity.
Defined.

(** C4, the claim at the helper: for a question at [(2, 3)] whose analytic
    value is 2, the learner's ["x"] matches at the question's point, and
    [compareAnswers] rejects it, because it evaluates ["x"] at x = 1. *)
Lemma compareAnswers_uses_a_probe_point :
  AnswerChecker_check (H := sample_engine) "x" {| px := 2; py := 3 |}
    2%float 0x1.999999999999ap-5 = Some true /\
  compareAnswers (H := sample_engine) "x" "2" (Some 0x1.999999999999ap-5%float)
  = Some (false, []).
Proof. split; reflexivity. Qed.


(** The learner answers ["2*pi"] and ["z"] to the saddle question: nothing
    binds [pi] or [z], both evaluations end in a [ReferenceError] that is
    caught and logged, neither partial matches, and the submission is
    counted as an attempt. *)
Example unbound_names_are_graded_incorrect :
  evaluation_throws (H := sample_engine) "2*pi" 1 (-1) JsReferenceError /\
  evaluation_throws (H := sample_engine) "z" 1 (-1) JsReferenceError /\
  exists st' fb,
    checkAnswer (H := sample_engine) saddle_state "2*pi" "z"
    = Graded st' fb [JsReferenceError; JsReferenceError] /\
    dfdxCorrect fb = false /\ dfdyCorrect fb = false /\
    stats st' = {| stats_correct := 0; stats_attempted := 1 |}.
Proof. split; [reflexivity |]. split; [reflexivity |]. do 2 eexists. repeat split. Qed.




(** The grid and the arrow in binary64, at the center [(0, 0)] of the saddle
    [2x² - y²]: 34 samples on each axis, from -5 to the accumulated
    4.8999999999999968, and an arrow of no length where the gradient is 0. *)
Example surface_grid_binary64 :
  option_map
    (fun g => (List.length (surface_x g), List.length (surface_y g),
               List.length (surface_z g), hd 0%float (surface_x g),
               last (surface_x g) 0%float))
    (generateSurfaceData (H := sample_numbers) 40
       (saddle_instance (H := sample_numbers) 2 1) 0%float 0%float)
  = Some (34%nat, 34%nat, 34%nat, (-5)%float, 0x1.3999999999996p+2%float).
Proof. reflexivity. Qed.

Example gradient_arrow_binary64 :
  let g := generateGradientArrows (H := sample_numbers)
             (saddle_instance (H := sample_numbers) 2 1) 0%float 0%float in
  trace_x g = [0%float; 0%float] /\ trace_y g = [0%float; 0%float] /\
  trace_z g = [0%float; 0%float].
Proof. repeat split; reflexivity. Qed.

(** * Further properties *)

(** ** Drawing points and coefficients *)

(** Without an excluded value [randomInt] takes one draw. *)
Lemma randomInt_no_exclusion (min max : Z) (draws : list float) (n : Z)
      (rest : list float) :
  randomInt min max None draws = Some (n, rest) <->
  exists r, draws = r :: rest /\ n = whole (scale_draw min max r).
Proof.
  destruct draws as [| r tail]; cbn [randomInt].
  - split; [discriminate | intros (r & Hd & _); discriminate].
  - destruct tail; cbn [resample is_excluded]; split.
    + intros [= <- <-]. now exists r.
    + intros (r' & [= <- <-] & ->). reflexivity.
    + intros [= <- <-]. now exists r.
    + intros (r' & [= <- <-] & ->). reflexivity.
Qed.

(** X1.  On binary64 draws in [0, 1), [randomPoint] returns exactly when
    the source holds two draws: it takes those two, never re-samples, and
    the point is their two scaled values, both of them whole numbers in
    [-3, 3]. *)
Theorem randomPoint_takes_two_draws (draws : list float) (p : Point) (rest : list float) :
  Forall valid_draw draws ->
  (randomPoint draws = Some (p, rest) <->
   exists r1 r2,
     draws = r1 :: r2 :: rest /\
     p = {| px := whole (scale_draw (-3) 3 r1); py := whole (scale_draw (-3) 3 r2) |}) /\
  (randomPoint draws = Some (p, rest) ->
   (-3 <= px p <= 3)%Z /\ (-3 <= py p <= 3)%Z).
Proof.
  intros Hvalid.
  assert (Hiff : randomPoint draws = Some (p, rest) <->
                 exists r1 r2,
                   draws = r1 :: r2 :: rest /\
                   p = {| px := whole (scale_draw (-3) 3 r1);
                          py := whole (scale_draw (-3) 3 r2) |}).
  { unfold randomPoint. split.
    - intros Hp. apply bind_Some in Hp. destruct Hp as (x & d1 & Hx & Hp).
      apply bind_Some in Hp. destruct Hp as (y & d2 & Hy & Hp).
      injection Hp as <- <-.
      apply randomInt_no_exclusion in Hx. destruct Hx as (r1 & -> & ->).
      apply randomInt_no_exclusion in Hy. destruct Hy as (r2 & -> & ->).
      now exists r1, r2.
    - intros (r1 & r2 & -> & ->). unfold bind.
      rewrite (proj2 (randomInt_no_exclusion (-3) 3 (r1 :: r2 :: rest) _ (r2 :: rest)))
        by (now exists r1).
      rewrite (proj2 (randomInt_no_exclusion (-3) 3 (r2 :: rest) _ rest))
        by (now exists r2).
      reflexivity. }
  split; [exact Hiff |].
  intros Hp. apply Hiff in Hp. destruct Hp as (r1 & r2 & -> & ->).
  inversion Hvalid as [| ? ? Hr1 Htail]; subst.
  inversion Htail as [| ? ? Hr2 _]; subst.
  destruct (scale_draw_range (-3) 3 r1 Hr1) as (n1 & Hn1 & ->); [simpl; tauto |].
  destruct (scale_draw_range (-3) 3 r2 Hr2) as (n2 & Hn2 & ->); [simpl; tauto |].
  cbn [px py]. rewrite !whole_float_of_Z by lia. split; assumption.
Qed.

(** The draws 0.75 and 0.5 give the point [(2, 0)]. *)
Lemma randomPoint_takes_two_draws_witness :
  Forall valid_draw [0.75; 0.5]%float /\
  randomPoint [0.75; 0.5]%float = Some ({| px := 2; py := 0 |}, []) /\
  (-3 <= 2 <= 3)%Z /\ (-3 <= 0 <= 3)%Z.
Proof.
  assert (Hv : Forall valid_draw [0.75; 0.5]%float).
  { repeat (apply Forall_cons; [split; [first [now left | now right] | reflexivity] |]).
    apply Forall_nil. }
  assert (Hp : randomPoint [0.75; 0.5]%float = Some ({| px := 2; py := 0 |}, []))
    by reflexivity.
  split; [exact Hv |]. split; [exact Hp |].
  exact (proj2 (randomPoint_takes_two_draws [0.75; 0.5]%float {| px := 2; py := 0 |} [] Hv) Hp).
Defined.

Ltac split_range Hn :=
  repeat match type of Hn with
         | _ \/ _ => destruct Hn as [Hn | Hn]
         end.

(** In the ranges the program draws from, [draw_for] is a draw that gives
    the number asked for. *)
Lemma draw_for_hits (min max n : Z) :
  In (min, max) drawn_ranges -> (min <= n <= max)%Z ->
  valid_draw (draw_for min max n) /\
  scale_draw min max (draw_for min max n) = float_of_Z n.
Proof.
  intros Hin Hn.
  destruct Hin as [[= <- <-] | [[= <- <-] | [[= <- <-] | []]]].
  - assert (Hc : (n = -3 \/ n = -2 \/ n = -1 \/ n = 0 \/ n = 1 \/ n = 2 \/ n = 3)%Z) by lia.
    split_range Hc; subst n; (split; [split; [now right | reflexivity] | reflexivity]).
  - assert (Hc : (n = -2 \/ n = -1 \/ n = 0 \/ n = 1 \/ n = 2)%Z) by lia.
    split_range Hc; subst n; (split; [split; [now right | reflexivity] | reflexivity]).
  - assert (Hc : (n = 1 \/ n = 2 \/ n = 3)%Z) by lia.
    split_range Hc; subst n; (split; [split; [now right | reflexivity] | reflexivity]).
Qed.

Lemma randomInt_draw_for (min max : Z) (exclude : option Z) (n : Z) (rest : list float) :
  In (min, max) drawn_ranges -> (min <= n <= max)%Z ->
  is_excluded exclude (float_of_Z n) = false ->
  randomInt min max exclude (draw_for min max n :: rest) = Some (n, rest).
Proof.
  intros Hin Hn Hex. destruct (draw_for_hits min max n Hin Hn) as [_ Hs].
  cbn [randomInt]. rewrite Hs.
  assert (Hw : whole (float_of_Z n) = n).
  { apply whole_float_of_Z. simpl in Hin.
    destruct Hin as [[= <- <-] | [[= <- <-] | [[= <- <-] | []]]]; lia. }
  destruct rest; cbn [resample]; rewrite Hex, Hw; reflexivity.
Qed.

(** X2.  The ranges are tight in binary64: in each range the program draws
    from ([-3, 3], [-2, 2] and [1, 3]), with no exclusion or with 0
    excluded, every whole number of the range that is not the excluded one
    is returned for some binary64 draw in [0, 1), taken as the first
    draw. *)
Theorem every_allowed_value_can_be_drawn
        (min max : Z) (exclude : option Z) (n : Z) (rest : list float) :
  In (min, max) drawn_ranges -> In exclude drawn_exclusions ->
  (min <= n <= max)%Z -> exclude <> Some n ->
  exists r, valid_draw r /\ randomInt min max exclude (r :: rest) = Some (n, rest).
Proof.
  intros Hin Hex Hn Hne. exists (draw_for min max n). split.
  - exact (proj1 (draw_for_hits min max n Hin Hn)).
  - apply randomInt_draw_for; [exact Hin | exact Hn |].
    apply (is_excluded_whole exclude n Hex (drawn_ranges_small min max n Hin Hn)).
    exact Hne.
Qed.

Lemma every_allowed_value_can_be_drawn_witness :
  In (-3, 3)%Z drawn_ranges /\ In (Some 0%Z) drawn_exclusions /\
  (-3 <= 2 <= 3)%Z /\ Some 0%Z <> Some 2%Z /\
  exists r, valid_draw r /\ randomInt (-3) 3 (Some 0%Z) [r] = Some (2%Z, []).
Proof.
  assert (Hin : In (-3, 3)%Z drawn_ranges) by (simpl; tauto).
  assert (Hex : In (Some 0%Z) drawn_exclusions) by (simpl; tauto).
  assert (Hn : (-3 <= 2 <= 3)%Z) by lia.
  assert (Hne : Some 0%Z <> Some 2%Z) by discriminate.
  split; [exact Hin |]. split; [exact Hex |]. split; [exact Hn |]. split; [exact Hne |].
  exact (every_allowed_value_can_be_drawn (-3) 3 (Some 0%Z) 2 [] Hin Hex Hn Hne).
Defined.

(** ** The shape of the plot data *)

Section RealPlotFacts.
Local Open Scope R_scope.

(** X3.  Over the reals the arrow has the same length whatever the size of
    the gradient: when a partial derivative is not 0 the end is the start
    moved by a positive multiple of the gradient, and the move has length
    0.3 in the plane; when both are 0 the end is the start. *)
Theorem arrow_has_the_visual_length (func : FunctionInstance R) (x0 y0 : R) :
  let dfdx := partialXValue func x0 y0 in
  let dfdy := partialYValue func x0 y0 in
  let g := generateGradientArrows func x0 y0 in
  exists ex ey : R,
    trace_x g = [x0; ex] /\ trace_y g = [y0; ey] /\
    ((dfdx = 0 /\ dfdy = 0 /\ ex = x0 /\ ey = y0)
     \/
     ((dfdx <> 0 \/ dfdy <> 0) /\
      (ex - x0) * (ex - x0) + (ey - y0) * (ey - y0) = (3 / 10) * (3 / 10) /\
      exists t, 0 < t /\ ex - x0 = t * dfdx /\ ey - y0 = t * dfdy)).
Proof.
  intros dfdx dfdy g.
  pose proof (gradient_arrow_real func x0 y0) as Harrow. cbv zeta in Harrow.
  fold dfdx dfdy in Harrow. fold g in Harrow.
  set (m := sqrt (dfdx * dfdx + dfdy * dfdy)) in *.
  assert (Hsq : 0 <= dfdx * dfdx + dfdy * dfdy) by nra.
  assert (Hmm : m * m = dfdx * dfdx + dfdy * dfdy) by (apply sqrt_sqrt; exact Hsq).
  destruct Harrow as (_ & [(Hpos & Hx & Hy) | (Hzero & Hx & Hy)]).
  - exists (x0 + dfdx / m * (3 / 10)), (y0 + dfdy / m * (3 / 10)).
    split; [exact Hx |]. split; [exact Hy |]. right.
    assert (Hm : m <> 0) by lra.
    split; [| split].
    + destruct (Req_dec dfdx 0) as [Hdx |]; [| now left].
      destruct (Req_dec dfdy 0) as [Hdy |]; [| now right].
      rewrite Hdx, Hdy in Hmm. nra.
    + replace ((x0 + dfdx / m * (3 / 10) - x0) * (x0 + dfdx / m * (3 / 10) - x0)
               + (y0 + dfdy / m * (3 / 10) - y0) * (y0 + dfdy / m * (3 / 10) - y0))
        with ((dfdx * dfdx + dfdy * dfdy) / (m * m) * ((3 / 10) * (3 / 10)))
        by (field; exact Hm).
      rewrite <- Hmm. field. exact Hm.
    + exists (3 / 10 / m). split; [| split].
      * apply Rdiv_lt_0_compat; lra.
      * field. exact Hm.
      * field. exact Hm.
  - exists x0, y0. split; [exact Hx |]. split; [exact Hy |]. left.
    rewrite Hzero in Hmm.
    assert (Hdx : dfdx = 0) by nra. assert (Hdy : dfdy = 0) by nra. auto.
Qed.

(** X4.  Over the reals the grid is not centred on the point: its samples
    run from [c - 5] to [c + 4.9] and none of them is the center itself, which
    lies between sample 16 ([c - 0.2]) and sample 17 ([c + 0.1]) on each
    axis. *)
Theorem center_is_not_a_grid_sample (func : FunctionInstance R) (x0 y0 : R) (fuel : nat)
        (g : SurfaceData R) :
  (34 < fuel)%nat ->
  generateSurfaceData fuel func x0 y0 = Some g ->
  (forall k, (k < 34)%nat ->
     x0 - 5 <= nth k (surface_x g) 0 <= x0 + 49 / 10 /\ nth k (surface_x g) 0 <> x0) /\
  (forall k, (k < 34)%nat ->
     y0 - 5 <= nth k (surface_y g) 0 <= y0 + 49 / 10 /\ nth k (surface_y g) 0 <> y0) /\
  nth 16 (surface_x g) 0 = x0 - 2 / 10 /\ nth 17 (surface_x g) 0 = x0 + 1 / 10 /\
  nth 16 (surface_y g) 0 = y0 - 2 / 10 /\ nth 17 (surface_y g) 0 = y0 + 1 / 10.
Proof.
  intros Hfuel Hg.
  destruct (surface_grid_real func x0 y0 fuel Hfuel)
    as (g' & Hg' & _ & _ & Hxs & Hys & _).
  rewrite Hg in Hg'. injection Hg' as <-.
  assert (Haxis : forall (c : R) (k : nat), (k < 34)%nat ->
            c - 5 <= c - 5 + INR k * (3 / 10) <= c + 49 / 10 /\
            c - 5 + INR k * (3 / 10) <> c).
  { intros c k Hk. pose proof (INR_le_33 k Hk) as Hhi. pose proof (pos_INR k) as Hlo.
    split; [lra |]. intros Heq.
    assert (H3k : INR (3 * k) = INR 50).
    { rewrite mult_INR. replace (INR 3) with 3 by (simpl; lra).
      replace (INR 50) with 50 by (simpl; lra). lra. }
    apply INR_eq in H3k. lia. }
  repeat match goal with |- _ /\ _ => split end.
  - intros k Hk. rewrite (Hxs k Hk). now apply Haxis.
  - intros k Hk. rewrite (Hys k Hk). now apply Haxis.
  - rewrite (Hxs 16%nat) by lia. simpl. lra.
  - rewrite (Hxs 17%nat) by lia. simpl. lra.
  - rewrite (Hys 16%nat) by lia. simpl. lra.
  - rewrite (Hys 17%nat) by lia. simpl. lra.
Qed.
End RealPlotFacts.

Lemma center_is_not_a_grid_sample_witness :
  (34 < 40)%nat /\
  exists g : SurfaceData R,
    generateSurfaceData 40 (saddle_instance 2 1) 0%R 0%R = Some g /\
    nth 16 (surface_x g) 0%R = (0 - 2 / 10)%R /\
    nth 17 (surface_x g) 0%R = (0 + 1 / 10)%R.
Proof.
  assert (Hfuel : (34 < 40)%nat) by lia.
  split; [exact Hfuel |].
  destruct (surface_grid_real (saddle_instance 2 1) 0%R 0%R 40 Hfuel) as (g & Hg & _).
  exists g. split; [exact Hg |].
  destruct (center_is_not_a_grid_sample (saddle_instance 2 1) 0%R 0%R 40 g Hfuel Hg)
    as (_ & _ & H16 & H17 & _).
  split; assumption.
Defined.

(** ** Numbers written into the text and read back *)

Section IntegerText.
Local Open Scope string_scope.

Lemma append_empty_r (s : string) : s ++ EmptyString = s.
Proof. induction s as [| a s IH]; simpl; [reflexivity | now rewrite IH]. Qed.

Lemma append_assoc (s t u : string) : (s ++ t) ++ u = s ++ (t ++ u).
Proof. induction s as [| a s IH]; simpl; [reflexivity | now rewrite IH]. Qed.

Lemma append_length (s t : string) :
  String.length (s ++ t) = (String.length s + String.length t)%nat.
Proof. induction s as [| a s IH]; simpl; [reflexivity | now rewrite IH]. Qed.

(** The ten digit characters. *)
Lemma digit_char_facts (d : Z) :
  (0 <= d < 10)%Z ->
  is_digit (digit_char d) = true /\
  digit_value (digit_char d) = d /\
  (d <> 0%Z -> Ascii.eqb "0" (digit_char d) = false).
Proof.
  intros Hd.
  assert (Hcases : In d [0; 1; 2; 3; 4; 5; 6; 7; 8; 9]%Z) by (simpl; lia).
  simpl in Hcases.
  repeat (destruct Hcases as [<- | Hcases];
          [repeat split; try reflexivity; intros Hne; try reflexivity; now elim Hne |]).
  contradiction.
Qed.

Lemma digit_is_no_space (c : ascii) : is_digit c = true -> Ascii.eqb c " " = false.
Proof.
  intros Hc. destruct (Ascii.eqb_spec c " ") as [-> | _]; [discriminate | reflexivity].
Qed.

(** The decimal digits of a positive number: what [show_pos_fuel] puts in
    front of [acc], read back by [take_digits]. *)
Lemma show_pos_fuel_digits (fuel : nat) :
  forall (n : Z) (acc : string),
    (0 < n < 2 ^ Z.of_nat fuel)%Z ->
    exists (k : nat) (pre : string),
      show_pos_fuel fuel n acc = pre ++ acc /\
      String.length pre = k /\ (1 <= k)%nat /\
      (forall ch, is_digit ch = false -> occurs ch pre = false) /\
      starts_with "0" pre = false /\
      (forall (rest : string) (m : Z) (c : nat),
          take_digits (pre ++ rest) m c
          = take_digits rest (m * 10 ^ Z.of_nat k + n) (c + k)).
Proof.
  induction fuel as [| fuel IH]; intros n acc Hn.
  - simpl in Hn. lia.
  - cbn [show_pos_fuel].
    assert (Hmod : (0 <= n mod 10 < 10)%Z) by (apply Z.mod_pos_bound; lia).
    destruct (digit_char_facts (n mod 10) Hmod) as (Hdig & Hval & Hzero).
    destruct (n <? 10)%Z eqn:Hsmall.
    + apply Z.ltb_lt in Hsmall.
      assert (Hn10 : (n mod 10 = n)%Z) by (apply Z.mod_small; lia).
      exists 1%nat, (String (digit_char (n mod 10)) EmptyString).
      repeat match goal with |- _ /\ _ => split end.
      * reflexivity.
      * reflexivity.
      * lia.
      * intros ch Hch. cbn [occurs]. rewrite orb_false_r.
        destruct (Ascii.eqb_spec ch (digit_char (n mod 10))) as [-> | _];
          [congruence | reflexivity].
      * cbn [starts_with]. apply Hzero. lia.
      * intros rest m c. cbn [append take_digits]. rewrite Hdig, Hval, Hn10.
        f_equal; [change (10 ^ Z.of_nat 1)%Z with 10%Z; lia | lia].
    + apply Z.ltb_ge in Hsmall.
      assert (Hdiv : (0 < n / 10 < 2 ^ Z.of_nat fuel)%Z).
      { split.
        - apply Z.div_str_pos. lia.
        - apply Z.div_lt_upper_bound; [lia |].
          rewrite Nat2Z.inj_succ, Z.pow_succ_r in Hn by lia.
          assert (0 < 2 ^ Z.of_nat fuel)%Z by (apply Z.pow_pos_nonneg; lia). lia. }
      destruct (IH (n / 10)%Z (String (digit_char (n mod 10)) acc) Hdiv)
        as (k & pre & Hshow & Hlen & Hk & Hocc & Hstart & Htake).
      exists (S k), (pre ++ String (digit_char (n mod 10)) EmptyString).
      repeat match goal with |- _ /\ _ => split end.
      * rewrite Hshow, append_assoc. reflexivity.
      * rewrite append_length, Hlen. simpl. lia.
      * lia.
      * intros ch Hch. 
        rewrite occurs_append, (Hocc ch Hch). cbn [occurs orb]. rewrite orb_false_r.
        destruct (Ascii.eqb_spec ch (digit_char (n mod 10))) as [-> | _];
          [congruence | reflexivity].
      * destruct pre as [| a pre]; [simpl in Hlen; lia | exact Hstart].
      * intros rest m c. rewrite append_assoc, Htake.
        cbn [append take_digits]. rewrite Hdig, Hval.
        f_equal; [| lia].
        rewrite Nat2Z.inj_succ, Z.pow_succ_r by lia.
        pose proof (Z.div_mod n 10 ltac:(lia)). lia.
Qed.

Lemma show_pos_bound (p : positive) :
  (0 < Z.pos p < 2 ^ Z.of_nat (S (Z.to_nat (Z.log2 (Z.pos p)))))%Z.
Proof.
  split; [lia |].
  rewrite Nat2Z.inj_succ, Z2Nat.id by apply Z.log2_nonneg.
  apply Z.log2_spec. lia.
Qed.

(** [show_Z] writes digits, and a minus sign in front of a negative number. *)
Lemma show_Z_only_digits (ch : ascii) (n : Z) :
  is_digit ch = false -> Ascii.eqb ch "-" = false -> occurs ch (show_Z n) = false.
Proof.
  intros Hch Hminus. destruct n as [| p | p]; unfold show_Z.
  - cbn [occurs]. rewrite orb_false_r.
    destruct (Ascii.eqb_spec ch "0") as [-> | _]; [discriminate | reflexivity].
  - destruct (show_pos_fuel_digits _ (Z.pos p) EmptyString (show_pos_bound p))
      as (k & pre & Hshow & _ & _ & Hocc & _).
    rewrite Hshow, append_empty_r. now apply Hocc.
  - destruct (show_pos_fuel_digits _ (Z.pos p) EmptyString (show_pos_bound p))
      as (k & pre & Hshow & _ & _ & Hocc & _).
    cbn [occurs]. rewrite Hminus, Hshow, append_empty_r. now apply Hocc.
Qed.

Lemma bound_value_text_has_only (ch : ascii) (n : Z) :
  is_digit ch = false -> Ascii.eqb ch "-" = false ->
  Ascii.eqb ch "(" = false -> Ascii.eqb ch ")" = false ->
  occurs ch ("(" ++ show_Z n ++ ")") = false.
Proof.
  intros Hd Hm Hl Hr. cbn [append occurs]. rewrite Hl, occurs_append.
  rewrite (show_Z_only_digits ch n Hd Hm). cbn [occurs orb]. now rewrite Hr.
Qed.

(** After the variable has been replaced by its value, no later replacement
    of the chain finds anything in that value. *)
Lemma later_replacements_keep_value (n : Z) (pat rep : string) (ch : ascii) :
  occurs ch pat = true ->
  is_digit ch = false -> Ascii.eqb ch "-" = false ->
  Ascii.eqb ch "(" = false -> Ascii.eqb ch ")" = false ->
  replace_all pat rep ("(" ++ show_Z n ++ ")") = "(" ++ show_Z n ++ ")".
Proof.
  intros Hpat Hd Hm Hl Hr. apply (replace_from_absent ch); [exact Hpat |].
  now apply bound_value_text_has_only.
Qed.

Ltac keep_value c :=
  rewrite (later_replacements_keep_value _ _ _ c)
    by reflexivity.

Lemma substitute_x (x y : Z) : substitute "x" x y = "(" ++ show_Z x ++ ")".
Proof.
  unfold substitute, substitute_up_to_sqrt.
  replace (replace_all "x" ("(" ++ show_Z x ++ ")") "x") with (("(" ++ show_Z x ++ ")") ++ EmptyString)
    by reflexivity.
  rewrite append_empty_r.
  keep_value "y"%char. keep_value "207"%char. keep_value "e"%char. keep_value "^"%char.
  keep_value "s"%char. keep_value "c"%char. keep_value "t"%char. keep_value "s"%char.
  keep_value "e"%char. keep_value "a"%char. reflexivity.
Qed.

Lemma substitute_y (x y : Z) : substitute "y" x y = "(" ++ show_Z y ++ ")".
Proof.
  unfold substitute, substitute_up_to_sqrt.
  replace (replace_all "x" ("(" ++ show_Z x ++ ")") "y") with "y" by reflexivity.
  replace (replace_all "y" ("(" ++ show_Z y ++ ")") "y") with (("(" ++ show_Z y ++ ")") ++ EmptyString)
    by reflexivity.
  rewrite append_empty_r.
  keep_value "207"%char. keep_value "e"%char. keep_value "^"%char.
  keep_value "s"%char. keep_value "c"%char. keep_value "t"%char. keep_value "s"%char.
  keep_value "e"%char. keep_value "a"%char. reflexivity.
Qed.

Lemma lex_open (s : string) : lex 0 (String "(" s) = cons_token TLParen (lex 0 s).
Proof. reflexivity. Qed.

Lemma lex_minus (s : string) :
  lex 0 (String "-" s) = if starts_with "-" s then None else cons_token TMinus (lex 0 s).
Proof. reflexivity. Qed.

Lemma lex_digit (c : ascii) (s : string) :
  is_digit c = true ->
  lex 0 (String c s) =
  match lex_number (String c s) with
  | Some (v, len) => cons_token (TNum v) (lex (len - 1) s)
  | None => None
  end.
Proof.
  intros Hc. cbn [lex]. now rewrite (digit_is_no_space c Hc), Hc.
Qed.

Lemma lex_skip (pre s : string) : lex (String.length pre) (pre ++ s) = lex 0 s.
Proof. induction pre as [| a pre IH]; [reflexivity | exact IH]. Qed.

(** The digits of a positive number below [2^53], followed by a closing
    parenthesis, are one number token; what follows is read from the
    parenthesis on. *)
Lemma lex_shown_number (p : positive) (t : string) :
  (Z.pos p < 2 ^ 53)%Z ->
  lex 0 (show_Z (Z.pos p) ++ String ")" t)
  = cons_token (TNum (float_of_Z (Z.pos p))) (lex 0 (String ")" t)) /\
  starts_with "-" (show_Z (Z.pos p) ++ String ")" t) = false.
Proof.
  intros Hp. unfold show_Z.
  destruct (show_pos_fuel_digits _ (Z.pos p) EmptyString (show_pos_bound p))
    as (k & pre & Hshow & Hlen & Hk & Hocc & Hstart & Htake).
  rewrite Hshow, append_empty_r.
  destruct pre as [| c0 pre']; [simpl in Hlen; lia |].
  assert (Hc0 : is_digit c0 = true).
  { destruct (is_digit c0) eqn:Hd; [reflexivity |].
    specialize (Hocc c0 Hd). cbn [occurs] in Hocc.
    now rewrite Ascii.eqb_refl in Hocc. }
  split.
  - cbn [append]. rewrite (lex_digit c0 _ Hc0).
    change (String c0 (pre' ++ String ")" t)) with (String c0 pre' ++ String ")" t).
    unfold lex_number. rewrite (Htake (String ")" t) 0%Z 0%nat).
    cbn [take_digits].
    replace (0 * 10 ^ Z.of_nat k + Z.pos p)%Z with (Z.pos p) by lia.
    replace (0 + k)%nat with k by lia.
    change (is_digit ")") with false. cbv iota.
    replace (starts_with "0" (String c0 pre' ++ String ")" t)) with false
      by (symmetry; exact Hstart).
    cbn [andb].
    replace (1 <=? k)%nat with true by (symmetry; apply Nat.leb_le; lia).
    replace (Z.pos p <? 2 ^ 53)%Z with true by (symmetry; apply Z.ltb_lt; exact Hp).
    change (ends_token (String ")" t)) with true. cbn [andb].
    assert (Hpre : String.length pre' = (k - 1)%nat) by (simpl in Hlen; lia).
    rewrite <- Hpre, lex_skip. reflexivity.
  - cbn [append starts_with].
    destruct (Ascii.eqb_spec "-" c0) as [<- | _]; [discriminate Hc0 | reflexivity].
Qed.

End IntegerText.

Section VariableRoundTrip.
Local Open Scope string_scope.
Context `{MathEngine}.

(** The text that stands for a bound value evaluates to that value. *)
Lemma bound_value_text_evaluates (n : Z) :
  (- 2 ^ 53 < n < 2 ^ 53)%Z ->
  js_Function_return ("(" ++ show_Z n ++ ")") = Normal (VNum (float_of_Z n)).
Proof.
  intros Hn. unfold js_Function_return.
  replace ("(" ++ ("(" ++ show_Z n ++ ")") ++ ")")
    with (String "(" (String "(" (show_Z n ++ "))")))
    by (cbn [append]; now rewrite append_assoc).
  rewrite !lex_open.
  destruct n as [| p | p].
  - reflexivity.
  - destruct (lex_shown_number p ")" ltac:(lia)) as [Hlex _]. rewrite Hlex. reflexivity.
  - destruct (lex_shown_number p ")" ltac:(lia)) as [Hlex Hstart].
    change (show_Z (Z.neg p)) with (String "-" (show_Z (Z.pos p))).
    cbn [append]. rewrite lex_minus, Hstart, Hlex. reflexivity.
Qed.

(** A whole number typed as the answer is that number. *)
Lemma integer_text_evaluates (n : Z) :
  (- 2 ^ 53 < n < 2 ^ 53)%Z ->
  js_Function_return (show_Z n) = Normal (VNum (float_of_Z n)).
Proof.
  intros Hn. unfold js_Function_return.
  replace ("(" ++ show_Z n ++ ")") with (String "(" (show_Z n ++ ")")) by reflexivity.
  rewrite lex_open.
  destruct n as [| p | p].
  - reflexivity.
  - destruct (lex_shown_number p EmptyString ltac:(lia)) as [Hlex _]. rewrite Hlex. reflexivity.
  - destruct (lex_shown_number p EmptyString ltac:(lia)) as [Hlex Hstart].
    change (show_Z (Z.neg p)) with (String "-" (show_Z (Z.pos p))).
    cbn [append]. rewrite lex_minus, Hstart, Hlex. reflexivity.
Qed.

Lemma substitute_integer_text (n x y : Z) : substitute (show_Z n) x y = show_Z n.
Proof.
  unfold substitute, substitute_up_to_sqrt, replace_all.
  repeat match goal with
         | |- context [replace_from ?pat ?rep 0 (show_Z n)] =>
             let c := eval cbv in (match pat with String c _ => c | EmptyString => " "%char end) in
             rewrite (replace_from_absent c pat rep eq_refl (show_Z n))
               by (apply show_Z_only_digits; reflexivity)
         end.
  reflexivity.
Qed.

(** X6.  A whole number typed as an answer is read as that number: for
    [n] below [2^53] in size, the decimal text of [n] evaluates to [n] at
    every point, with nothing logged. *)
Theorem whole_numbers_are_read_exactly (n x y : Z) :
  (- 2 ^ 53 < n < 2 ^ 53)%Z ->
  evaluateExpression (show_Z n) x y = Some (VNum (float_of_Z n), []).
Proof.
  intros Hn. unfold evaluateExpression.
  now rewrite substitute_integer_text, (integer_text_evaluates n Hn).
Qed.

(** X5.  The variables mean their bindings: for whole numbers [x] and [y]
    below [2^53] in size, the text ["x"] evaluates to [x] and the text ["y"]
    to [y], with nothing logged.  The value is written into the text in
    parentheses, no later replacement touches it, and the engine reads the
    same number back. *)
Theorem variables_evaluate_to_their_bindings (x y : Z) :
  (- 2 ^ 53 < x < 2 ^ 53)%Z -> (- 2 ^ 53 < y < 2 ^ 53)%Z ->
  evaluateExpression "x" x y = Some (VNum (float_of_Z x), []) /\
  evaluateExpression "y" x y = Some (VNum (float_of_Z y), []).
Proof.
  intros Hx Hy. unfold evaluateExpression.
  rewrite substitute_x, substitute_y.
  now rewrite (bound_value_text_evaluates x Hx), (bound_value_text_evaluates y Hy).
Qed.
End VariableRoundTrip.

Lemma whole_numbers_are_read_exactly_witness :
  (- 2 ^ 53 < -1234567890 < 2 ^ 53)%Z /\
  evaluateExpression (H := sample_engine) "-1234567890" 2 3
  = Some (VNum (float_of_Z (-1234567890)), []).
Proof.
  assert (Hn : (- 2 ^ 53 < -1234567890 < 2 ^ 53)%Z) by lia.
  split; [exact Hn |].
  exact (whole_numbers_are_read_exactly (H := sample_engine) (-1234567890) 2 3 Hn).
Defined.

Lemma variables_evaluate_to_their_bindings_witness :
  (- 2 ^ 53 < 9007199254740991 < 2 ^ 53)%Z /\ (- 2 ^ 53 < -12 < 2 ^ 53)%Z /\
  evaluateExpression (H := sample_engine) "x" 9007199254740991 (-12)
  = Some (VNum (float_of_Z 9007199254740991), []) /\
  evaluateExpression (H := sample_engine) "y" 9007199254740991 (-12)
  = Some (VNum (float_of_Z (-12)), []).
Proof.
  assert (Hx : (- 2 ^ 53 < 9007199254740991 < 2 ^ 53)%Z) by lia.
  assert (Hy : (- 2 ^ 53 < -12 < 2 ^ 53)%Z) by lia.
  split; [exact Hx |]. split; [exact Hy |].
  exact (variables_evaluate_to_their_bindings (H := sample_engine) _ _ Hx Hy).
Defined.

(** ** What [generate] can return *)

Lemma nonzero_not_excluded (lo hi n : Z) :
  nonzero_within lo hi n -> (-8 <= lo)%Z -> (hi <= 8)%Z ->
  is_excluded (Some 0%Z) (float_of_Z n) = false.
Proof.
  intros [Hn Hnz] Hlo Hhi.
  assert (Hc : (n = -8 \/ n = -7 \/ n = -6 \/ n = -5 \/ n = -4 \/ n = -3 \/ n = -2
               \/ n = -1 \/ n = 1 \/ n = 2 \/ n = 3 \/ n = 4 \/ n = 5 \/ n = 6
               \/ n = 7 \/ n = 8)%Z) by lia.
  split_range Hc; subst n; reflexivity.
Qed.

Section GenerateAll.
Context {T : Type} `{JsNumber T}.

Ltac hit Hn :=
  rewrite randomInt_draw_for;
  [| simpl; tauto
   | first [exact Hn | exact (proj1 Hn)]
   | first [reflexivity | apply (nonzero_not_excluded _ _ _ Hn); lia]].

(** Every instance of the catalog is generated from some draws, one per
    coefficient, whatever follows them in the source. *)
Lemma generated_is_drawn (key : FunctionKey) (inst : FunctionInstance T) :
  generated key inst ->
  exists draws,
    Forall valid_draw draws /\
    forall rest, generate (FUNCTIONS key) (draws ++ rest) = Some (inst, rest).
Proof.
  intros Hg. destruct Hg as [a b c d e Ha Hb Hc Hd He | a c d Ha Hc Hd
                            | a b c Ha Hb Hc | a b Ha Hb].
  - exists [draw_for (-3) 3 a; draw_for (-3) 3 b; draw_for (-3) 3 c;
            draw_for (-2) 2 d; draw_for (-2) 2 e].
    split.
    + repeat (apply Forall_cons;
              [apply draw_for_hits; [simpl; tauto | first [exact (proj1 Ha) | exact (proj1 Hb) | exact (proj1 Hc)
              | exact (proj1 Hd) | exact (proj1 He)]] |]).
      apply Forall_nil.
    + intros rest. cbn [FUNCTIONS generate app]. unfold bind.
      hit Ha. hit Hb. hit Hc. hit Hd. hit He. reflexivity.
  - exists [draw_for 1 3 a; draw_for 1 3 c; draw_for (-2) 2 d].
    split.
    + repeat (apply Forall_cons;
              [apply draw_for_hits; [simpl; tauto | first [exact Ha | exact Hc | exact (proj1 Hd)]] |]).
      apply Forall_nil.
    + intros rest. cbn [FUNCTIONS generate app]. unfold bind.
      hit Ha. hit Hc. hit Hd. reflexivity.
  - exists [draw_for 1 3 a; draw_for 1 3 b; draw_for (-2) 2 c].
    split.
    + repeat (apply Forall_cons;
              [apply draw_for_hits; [simpl; tauto | first [exact Ha | exact Hb | exact (proj1 Hc)]] |]).
      apply Forall_nil.
    + intros rest. cbn [FUNCTIONS generate app]. unfold bind.
      hit Ha. hit Hb. hit Hc. reflexivity.
  - exists [draw_for 1 3 a; draw_for 1 3 b].
    split.
    + repeat (apply Forall_cons;
              [apply draw_for_hits; [simpl; tauto | first [exact Ha | exact Hb]] |]).
      apply Forall_nil.
    + intros rest. cbn [FUNCTIONS generate app]. unfold bind.
      hit Ha. hit Hb. reflexivity.
Qed.

(** X7.  A family's [generate] returns exactly the instances of the
    catalog: whatever it returns on draws in [0, 1) has its coefficients in
    the family's ranges, and every instance with coefficients in those
    ranges is returned on some draws. *)
Theorem generate_returns_exactly_the_catalog (key : FunctionKey) (inst : FunctionInstance T) :
  generated key inst <->
  exists draws rest,
    Forall valid_draw draws /\ generate (FUNCTIONS key) draws = Some (inst, rest).
Proof.
  split.
  - intros Hg. destruct (generated_is_drawn key inst Hg) as (draws & Hv & Hd).
    exists draws, []. split; [exact Hv |]. rewrite <- (app_nil_r draws) at 1. apply Hd.
  - intros (draws & rest & Hv & Hd).
    exact (proj1 (generate_generated key draws inst rest Hv Hd)).
Qed.

End GenerateAll.

(** ** The states of a session *)

Section SessionFacts.
Context `{MathEngine}.





Lemma key_draw (key : FunctionKey) :
  valid_draw (key_draw_for (key_index key)) /\
  nth (Z.to_nat (whole (Math_floor (PrimFloat.mul (key_draw_for (key_index key))
                                      (float_of_Z (Z.of_nat (List.length funcKeys)))))))
      funcKeys quadratic = key.
Proof. destruct key; (split; [split; [now right | reflexivity] | reflexivity]). Qed.

(** X8.  The surface plotted for a new question is generated apart from
    the question's function: for every family, any two of its instances [f]
    and [g] and any point with whole coordinates in [-3, 3], some draws make
    [generateNewQuestion] ask about [f] at the point while it plots [g]
    there.  The plot shows the family of the question, not its function. *)
Theorem question_and_plot_are_generated_apart
        (st : State) (key : FunctionKey) (f g : FunctionInstance float) (p : Point) :
  generated key f -> generated key g ->
  (-3 <= px p <= 3)%Z -> (-3 <= py p <= 3)%Z ->
  exists draws,
    Forall valid_draw draws /\
    generateNewQuestion st draws = Some (asked st key f g p, []).
Proof.
  intros Hf Hg Hx Hy.
  destruct (generated_is_drawn key f Hf) as (df & Hvf & Hdf).
  destruct (generated_is_drawn key g Hg) as (dg & Hvg & Hdg).
  destruct (key_draw key) as [Hvk Hk].
  exists (key_draw_for (key_index key)
            :: df ++ draw_for (-3) 3 (px p) :: draw_for (-3) 3 (py p) :: dg ++ []).
  split.
  - constructor; [exact Hvk |]. apply Forall_app. split; [exact Hvf |].
    constructor; [apply draw_for_hits; [simpl; tauto | exact Hx] |].
    constructor; [apply draw_for_hits; [simpl; tauto | exact Hy] |].
    rewrite app_nil_r. exact Hvg.
  - unfold generateNewQuestion, bind at 1. cbn [Math_random]. cbv zeta.
    rewrite Hk. unfold bind at 1. rewrite Hdf.
    unfold bind at 1. unfold randomPoint, bind at 1.
    rewrite randomInt_draw_for by first [assumption | reflexivity | simpl; tauto].
    unfold bind at 1.
    rewrite randomInt_draw_for by first [assumption | reflexivity | simpl; tauto].
    unfold ret at 1. unfold updatePlot, bind. rewrite Hdg.
    destruct p as [x y]. reflexivity.
Qed.




End SessionFacts.



Lemma question_and_plot_are_generated_apart_witness :
  generated (H := sample_numbers) saddle (func saddle_question) /\
  generated (H := sample_numbers) saddle plotted_saddle /\
  (-3 <= px (point saddle_question) <= 3)%Z /\
  (-3 <= py (point saddle_question) <= 3)%Z /\
  exists draws,
    Forall valid_draw draws /\
    generateNewQuestion (H := sample_engine) STATE draws
    = Some (asked STATE saddle (func saddle_question)
                  plotted_saddle (point saddle_question), []).
Proof.
  assert (Hf : generated (H := sample_numbers) saddle (func saddle_question))
    by (constructor; unfold within; lia).
  assert (Hg : generated (H := sample_numbers) saddle plotted_saddle)
    by (constructor; unfold within; lia).
  assert (Hx : (-3 <= px (point saddle_question) <= 3)%Z) by (simpl; lia).
  assert (Hy : (-3 <= py (point saddle_question) <= 3)%Z) by (simpl; lia).
  split; [exact Hf |]. split; [exact Hg |]. split; [exact Hx |]. split; [exact Hy |].
  exact (question_and_plot_are_generated_apart (H := sample_engine) STATE saddle
           (func saddle_question)
           plotted_saddle (point saddle_question)
           Hf Hg Hx Hy).
Defined.




(** ** Answers that are accepted *)

Lemma in_whole_numbers (lo : Z) (count : nat) (z : Z) :
  (lo <= z < lo + Z.of_nat count)%Z -> In z (whole_numbers lo count).
Proof.
  intros Hz. unfold whole_numbers. apply in_map_iff.
  exists (Z.to_nat (z - lo)). split; [lia |]. apply in_seq. lia.
Qed.

Lemma in_from_minus3_to_3 (z : Z) : (-3 <= z <= 3)%Z -> In z from_minus3_to_3.
Proof. intros Hz. apply in_whole_numbers. lia. Qed.

Lemma in_from_minus2_to_2 (z : Z) : (-2 <= z <= 2)%Z -> In z from_minus2_to_2.
Proof. intros Hz. apply in_whole_numbers. lia. Qed.

Lemma in_from_1_to_3 (z : Z) : within 1 3 z -> In z from_1_to_3.
Proof. intros Hz. apply in_whole_numbers. unfold within in Hz. lia. Qed.

Lemma nonzero_within_in_3 (z : Z) : nonzero_within (-3) 3 z -> In z from_minus3_to_3.
Proof. intros [Hz _]. now apply in_from_minus3_to_3. Qed.

Lemma nonzero_within_in_2 (z : Z) : nonzero_within (-2) 2 z -> In z from_minus2_to_2.
Proof. intros [Hz _]. now apply in_from_minus2_to_2. Qed.

Lemma for_all3_spec (l1 l2 l3 : list Z) (P : Z -> Z -> Z -> bool) :
  for_all3 l1 l2 l3 P = true ->
  forall a b c, In a l1 -> In b l2 -> In c l3 -> P a b c = true.
Proof.
  unfold for_all3. intros Hall a b c Ha Hb Hc.
  rewrite forallb_forall in Hall. specialize (Hall a Ha).
  rewrite forallb_forall in Hall. specialize (Hall b Hb).
  rewrite forallb_forall in Hall. exact (Hall c Hc).
Qed.

Lemma for_all5_spec (l1 l2 l3 l4 l5 : list Z) (P : Z -> Z -> Z -> Z -> Z -> bool) :
  for_all5 l1 l2 l3 l4 l5 P = true ->
  forall a b c d e, In a l1 -> In b l2 -> In c l3 -> In d l4 -> In e l5 ->
                    P a b c d e = true.
Proof.
  unfold for_all5. intros Hall a b c d e Ha Hb Hc Hd He.
  rewrite forallb_forall in Hall. specialize (Hall a Ha).
  rewrite forallb_forall in Hall. specialize (Hall b Hb).
  exact (for_all3_spec _ _ _ _ Hall c d e Hc Hd He).
Qed.

Lemma finite_cases (v : float) :
  ~ not_finite v ->
  (exists s, Prim2SF v = S754_zero s) \/ (exists s m e, Prim2SF v = S754_finite s m e).
Proof.
  intros Hv. unfold not_finite in Hv.
  destruct (Prim2SF v) as [s | s | | s m e] eqn:E.
  - left. now exists s.
  - exfalso. apply Hv. right. now exists s.
  - exfalso. apply Hv. now left.
  - right. now exists s, m, e.
Qed.

(** A finite value minus itself is zero, so it is closer to itself than any
    positive tolerance; [NaN] and the infinities are not. *)
Lemma own_value_is_close (v t : float) :
  PrimFloat.ltb 0 t = true ->
  (PrimFloat.ltb (PrimFloat.abs (PrimFloat.sub v v)) t = true <-> ~ not_finite v).
Proof.
  intros Ht. split.
  - intros Hc Hv. rewrite (not_finite_never_close v v t Hv) in Hc. discriminate.
  - intros Hv. rewrite ltb_spec in Ht. rewrite ltb_spec, abs_spec, sub_spec.
    destruct (finite_cases v Hv) as [[s ->] | (s & m & e & ->)].
    + destruct s; exact Ht.
    + unfold SF64sub, SFsub. rewrite Z.min_id, Z.sub_diag. exact Ht.
Qed.

Section Acceptance.
Context `{MathEngine}.

Lemma accepts_spec (answer : string) (x y : Z) (c : float) :
  accepts answer x y c = true ->
  is_empty answer = false /\
  exists v, evaluateExpression answer x y = Some (v, []) /\ within_tolerance v c = true.
Proof.
  unfold accepts. intros Hacc. apply andb_true_iff in Hacc. destruct Hacc as [Hne Hev].
  apply negb_true_iff in Hne. split; [exact Hne |].
  destruct (evaluateExpression answer x y) as [[v [| err log]] |]; try discriminate.
  now exists v.
Qed.

(** Two accepted answers are graded as all correct. *)
Lemma accepted_answers_are_graded (st : State) (q : Question) (dx dy : string) :
  currentQuestion st = Some q ->
  accepts dx (px (point q)) (py (point q))
    (partialXValue (func q) (float_of_Z (px (point q))) (float_of_Z (py (point q)))) = true ->
  accepts dy (px (point q)) (py (point q))
    (partialYValue (func q) (float_of_Z (px (point q))) (float_of_Z (py (point q)))) = true ->
  exists st' fb,
    checkAnswer st dx dy = Graded st' fb [] /\
    dfdxCorrect fb = true /\ dfdyCorrect fb = true /\ allCorrect fb = true /\
    stats_correct (stats st') = S (stats_correct (stats st)) /\
    stats_attempted (stats st') = S (stats_attempted (stats st)) /\
    currentQuestion st' = Some (graded_question q true).
Proof.
  intros Hq Hx Hy.
  apply accepts_spec in Hx. destruct Hx as (Hnx & vx & Hvx & Hokx).
  apply accepts_spec in Hy. destruct Hy as (Hny & vy & Hvy & Hoky).
  rewrite (checkAnswer_graded st q dx dy vx vy [] [] Hq Hnx Hny Hvx Hvy).
  cbv zeta. rewrite Hokx, Hoky. do 2 eexists. split; [reflexivity |].
  repeat split.
Qed.

(** The quadratic family at the points of the practice range, case by
    case: the partial in [x] is the whole number [2ax + by + d], and the
    formula shown and that number are both accepted. *)
Lemma quadratic_x_checked :
  for_all5 from_minus3_to_3 from_minus3_to_3 from_minus2_to_2 from_minus3_to_3 from_minus3_to_3
    (fun a b d x y =>
       let f := quadratic_instance a b 0 d 0 in
       let v := partialXValue f (float_of_Z x) (float_of_Z y) in
       PrimFloat.eqb v (float_of_Z (2 * a * x + b * y + d)) &&
       accepts (partialX f (float_of_Z x) (float_of_Z y)) x y v &&
       accepts (show_Z (2 * a * x + b * y + d)) x y v)
  = true.
Proof. vm_compute. reflexivity. Qed.

Lemma quadratic_y_checked :
  for_all5 from_minus3_to_3 from_minus3_to_3 from_minus2_to_2 from_minus3_to_3 from_minus3_to_3
    (fun b c e x y =>
       let f := quadratic_instance 0 b c 0 e in
       let v := partialYValue f (float_of_Z x) (float_of_Z y) in
       PrimFloat.eqb v (float_of_Z (b * x + 2 * c * y + e)) &&
       accepts (partialY f (float_of_Z x) (float_of_Z y)) x y v &&
       accepts (show_Z (b * x + 2 * c * y + e)) x y v)
  = true.
Proof. vm_compute. reflexivity. Qed.

Lemma saddle_checked :
  for_all3 from_1_to_3 from_minus3_to_3 from_minus3_to_3
    (fun a x y =>
       let f := saddle_instance a a in
       let vx := partialXValue f (float_of_Z x) (float_of_Z y) in
       let vy := partialYValue f (float_of_Z x) (float_of_Z y) in
       PrimFloat.eqb vx (float_of_Z (2 * a * x)) &&
       PrimFloat.eqb vy (float_of_Z (-2 * a * y)) &&
       accepts (partialX f (float_of_Z x) (float_of_Z y)) x y vx &&
       accepts (partialY f (float_of_Z x) (float_of_Z y)) x y vy &&
       accepts (show_Z (2 * a * x)) x y vx &&
       accepts (show_Z (-2 * a * y)) x y vy)
  = true.
Proof. vm_compute. reflexivity. Qed.

Ltac split_checked H :=
  repeat match type of H with
         | (_ && _)%bool = true =>
             let H' := fresh H in
             apply andb_true_iff in H; destruct H as [H H']
         end.

Lemma quadratic_answers (a b c d e x y : Z) :
  In a from_minus3_to_3 -> In b from_minus3_to_3 -> In c from_minus3_to_3 ->
  In d from_minus2_to_2 -> In e from_minus2_to_2 ->
  In x from_minus3_to_3 -> In y from_minus3_to_3 ->
  let f := quadratic_instance a b c d e in
  let vx := partialXValue f (float_of_Z x) (float_of_Z y) in
  let vy := partialYValue f (float_of_Z x) (float_of_Z y) in
  (PrimFloat.eqb vx (float_of_Z (2 * a * x + b * y + d)) = true /\
   PrimFloat.eqb vy (float_of_Z (b * x + 2 * c * y + e)) = true) /\
  (accepts (partialX f (float_of_Z x) (float_of_Z y)) x y vx = true /\
   accepts (partialY f (float_of_Z x) (float_of_Z y)) x y vy = true) /\
  (accepts (show_Z (2 * a * x + b * y + d)) x y vx = true /\
   accepts (show_Z (b * x + 2 * c * y + e)) x y vy = true).
Proof.
  intros Ha Hb Hc Hd He Hx Hy.
  pose proof (for_all5_spec _ _ _ _ _ _ quadratic_x_checked a b d x y Ha Hb Hd Hx Hy) as HX.
  pose proof (for_all5_spec _ _ _ _ _ _ quadratic_y_checked b c e x y Hb Hc He Hx Hy) as HY.
  cbv beta zeta in HX, HY. split_checked HX. split_checked HY.
  cbv zeta. repeat split; assumption.
Qed.

Lemma saddle_answers (a b x y : Z) :
  In a from_1_to_3 -> In b from_1_to_3 ->
  In x from_minus3_to_3 -> In y from_minus3_to_3 ->
  let f := saddle_instance a b in
  let vx := partialXValue f (float_of_Z x) (float_of_Z y) in
  let vy := partialYValue f (float_of_Z x) (float_of_Z y) in
  (PrimFloat.eqb vx (float_of_Z (2 * a * x)) = true /\
   PrimFloat.eqb vy (float_of_Z (-2 * b * y)) = true) /\
  (accepts (partialX f (float_of_Z x) (float_of_Z y)) x y vx = true /\
   accepts (partialY f (float_of_Z x) (float_of_Z y)) x y vy = true) /\
  (accepts (show_Z (2 * a * x)) x y vx = true /\
   accepts (show_Z (-2 * b * y)) x y vy = true).
Proof.
  intros Ha Hb Hx Hy.
  pose proof (for_all3_spec _ _ _ _ saddle_checked a x y Ha Hx Hy) as HA.
  pose proof (for_all3_spec _ _ _ _ saddle_checked b x y Hb Hx Hy) as HB.
  cbv beta zeta in HA, HB. split_checked HA. split_checked HB.
  cbv zeta. repeat split; assumption.
Qed.

(** X12.  The solution shown is accepted as an answer: for a quadratic or
    a saddle question at a point with whole coordinates in [-3, 3], the two
    formulas that the step-by-step solution displays, typed into the two
    fields, are graded as all correct, with nothing logged, and the score
    goes up by one. *)
Theorem shown_solution_is_accepted (st : State) (q : Question) :
  currentQuestion st = Some q ->
  generated quadratic (func q) \/ generated saddle (func q) ->
  (-3 <= px (point q) <= 3)%Z -> (-3 <= py (point q) <= 3)%Z ->
  let x := float_of_Z (px (point q)) in
  let y := float_of_Z (py (point q)) in
  exists st' fb,
    checkAnswer st (partialX (func q) x y) (partialY (func q) x y) = Graded st' fb [] /\
    dfdxCorrect fb = true /\ dfdyCorrect fb = true /\ allCorrect fb = true /\
    stats_correct (stats st') = S (stats_correct (stats st)) /\
    stats_attempted (stats st') = S (stats_attempted (stats st)) /\
    currentQuestion st' = Some (graded_question q true).
Proof.
  intros Hq Hgen Hx Hy x y. subst x y.
  apply in_from_minus3_to_3 in Hx, Hy.
  destruct Hgen as [Hgen | Hgen];
    inversion Hgen as [a b c d e Ha Hb Hc Hd He | | | a b Ha Hb];
    match goal with Heq : _ = func q |- _ => rename Heq into Hf end.
  - apply nonzero_within_in_3 in Ha, Hb, Hc. apply nonzero_within_in_2 in Hd, He.
    destruct (quadratic_answers a b c d e _ _ Ha Hb Hc Hd He Hx Hy) as (_ & [Hax Hay] & _).
    apply (accepted_answers_are_graded st q _ _ Hq); rewrite <- Hf; assumption.
  - apply in_from_1_to_3 in Ha, Hb.
    destruct (saddle_answers a b _ _ Ha Hb Hx Hy) as (_ & [Hax Hay] & _).
    apply (accepted_answers_are_graded st q _ _ Hq); rewrite <- Hf; assumption.
Qed.

(** X13.  For a quadratic or a saddle question at a point with whole
    coordinates in [-3, 3], the two values the answers are compared with are
    whole numbers, computed in binary64 without rounding; and these two
    numbers, typed in decimal, are graded as all correct. *)
Theorem whole_number_answers_are_accepted (st : State) (q : Question) :
  currentQuestion st = Some q ->
  generated quadratic (func q) \/ generated saddle (func q) ->
  (-3 <= px (point q) <= 3)%Z -> (-3 <= py (point q) <= 3)%Z ->
  let x := float_of_Z (px (point q)) in
  let y := float_of_Z (py (point q)) in
  exists gx gy : Z,
    PrimFloat.eqb (partialXValue (func q) x y) (float_of_Z gx) = true /\
    PrimFloat.eqb (partialYValue (func q) x y) (float_of_Z gy) = true /\
    exists st' fb,
      checkAnswer st (show_Z gx) (show_Z gy) = Graded st' fb [] /\
      dfdxCorrect fb = true /\ dfdyCorrect fb = true /\ allCorrect fb = true /\
      stats_correct (stats st') = S (stats_correct (stats st)) /\
      stats_attempted (stats st') = S (stats_attempted (stats st)) /\
      currentQuestion st' = Some (graded_question q true).
Proof.
  intros Hq Hgen Hx Hy x y. subst x y.
  apply in_from_minus3_to_3 in Hx, Hy.
  destruct Hgen as [Hgen | Hgen];
    inversion Hgen as [a b c d e Ha Hb Hc Hd He | | | a b Ha Hb];
    match goal with Heq : _ = func q |- _ => rename Heq into Hf end.
  - apply nonzero_within_in_3 in Ha, Hb, Hc. apply nonzero_within_in_2 in Hd, He.
    destruct (quadratic_answers a b c d e _ _ Ha Hb Hc Hd He Hx Hy)
      as ([Hex Hey] & _ & [Hax Hay]).
    do 2 eexists. split; [exact Hex |]. split; [exact Hey |].
    apply (accepted_answers_are_graded st q _ _ Hq); rewrite <- Hf; assumption.
  - apply in_from_1_to_3 in Ha, Hb.
    destruct (saddle_answers a b _ _ Ha Hb Hx Hy) as ([Hex Hey] & _ & [Hax Hay]).
    do 2 eexists. split; [exact Hex |]. split; [exact Hey |].
    apply (accepted_answers_are_graded st q _ _ Hq); rewrite <- Hf; assumption.
Qed.

Lemma one_to_three (z : Z) : within 1 3 z -> z = 1%Z \/ z = 2%Z \/ z = 3%Z.
Proof. unfold within. lia. Qed.

Lemma minus3_to_3 (z : Z) :
  (-3 <= z <= 3)%Z ->
  z = (-3)%Z \/ z = (-2)%Z \/ z = (-1)%Z \/ z = 0%Z \/ z = 1%Z \/ z = 2%Z \/ z = 3%Z.
Proof. lia. Qed.

Ltac by_cases :=
  repeat match goal with H : _ \/ _ |- _ => destruct H end; subst;
  vm_compute; reflexivity.

(** The formulas shown for a sinusoidal instance evaluate, at a point of
    the practice range, to the very values the answers are compared with,
    whatever the engine's sine and cosine are. *)
Lemma sinusoidal_formulas (f : FunctionInstance float) (x y : Z) :
  generated sinusoidal f ->
  (-3 <= x <= 3)%Z -> (-3 <= y <= 3)%Z ->
  (is_empty (partialX f (float_of_Z x) (float_of_Z y)) = false /\
   is_empty (partialY f (float_of_Z x) (float_of_Z y)) = false) /\
  evaluateExpression (partialX f (float_of_Z x) (float_of_Z y)) x y
    = Some (VNum (partialXValue f (float_of_Z x) (float_of_Z y)), []) /\
  evaluateExpression (partialY f (float_of_Z x) (float_of_Z y)) x y
    = Some (VNum (partialYValue f (float_of_Z x) (float_of_Z y)), []).
Proof.
  intros Hgen Hx Hy.
  inversion Hgen as [| | a b c Ha Hb Hc |]. subst f. clear Hgen Hc.
  apply one_to_three in Ha, Hb. apply minus3_to_3 in Hx, Hy.
  split; [split | split].
  - clear Hb Hx Hy. by_cases.
  - clear Ha Hx Hy. by_cases.
  - clear Hb. by_cases.
  - clear Ha. by_cases.
Qed.

(** X14.  For a sinusoidal question at a point with whole coordinates in
    [-3, 3], with any engine: each formula of the shown solution evaluates
    to exactly the value it is compared with, nothing is logged, and it is
    graded correct exactly when that value is a finite number. *)
Theorem sinusoidal_solution_is_accepted_when_finite (st : State) (q : Question) :
  currentQuestion st = Some q ->
  generated sinusoidal (func q) ->
  (-3 <= px (point q) <= 3)%Z -> (-3 <= py (point q) <= 3)%Z ->
  let x := float_of_Z (px (point q)) in
  let y := float_of_Z (py (point q)) in
  evaluateExpression (partialX (func q) x y) (px (point q)) (py (point q))
    = Some (VNum (partialXValue (func q) x y), []) /\
  evaluateExpression (partialY (func q) x y) (px (point q)) (py (point q))
    = Some (VNum (partialYValue (func q) x y), []) /\
  exists st' fb,
    checkAnswer st (partialX (func q) x y) (partialY (func q) x y) = Graded st' fb [] /\
    (dfdxCorrect fb = true <-> ~ not_finite (partialXValue (func q) x y)) /\
    (dfdyCorrect fb = true <-> ~ not_finite (partialYValue (func q) x y)).
Proof.
  intros Hq Hgen Hx Hy x y. subst x y.
  destruct (sinusoidal_formulas (func q) _ _ Hgen Hx Hy) as ([Hnx Hny] & Hvx & Hvy).
  split; [exact Hvx |]. split; [exact Hvy |].
  rewrite (checkAnswer_graded st q _ _ _ _ [] [] Hq Hnx Hny Hvx Hvy).
  cbv zeta. do 2 eexists. split; [reflexivity |].
  split; apply own_value_is_close; reflexivity.
Qed.

End Acceptance.

Lemma shown_solution_is_accepted_witness :
  currentQuestion saddle_state = Some saddle_question /\
  generated (H := sample_numbers) saddle (func saddle_question) /\
  (-3 <= px (point saddle_question) <= 3)%Z /\ (-3 <= py (point saddle_question) <= 3)%Z /\
  exists st' fb,
    checkAnswer (H := sample_engine) saddle_state "4*x" "-2*y" = Graded st' fb [] /\
    allCorrect fb = true.
Proof.
  assert (Hg : generated (H := sample_numbers) saddle (func saddle_question))
    by (constructor; unfold within; lia).
  assert (Hx : (-3 <= px (point saddle_question) <= 3)%Z) by (simpl; lia).
  assert (Hy : (-3 <= py (point saddle_question) <= 3)%Z) by (simpl; lia).
  split; [reflexivity |]. split; [exact Hg |]. split; [exact Hx |]. split; [exact Hy |].
  destruct (shown_solution_is_accepted (H := sample_engine) saddle_state saddle_question
              eq_refl (or_intror Hg) Hx Hy)
    as (st' & fb & Hc & _ & _ & Hall & _).
  exists st', fb. split; assumption.
Defined.

Lemma whole_number_answers_are_accepted_witness :
  currentQuestion saddle_state = Some saddle_question /\
  generated (H := sample_numbers) saddle (func saddle_question) /\
  (-3 <= px (point saddle_question) <= 3)%Z /\ (-3 <= py (point saddle_question) <= 3)%Z /\
  exists (gx gy : Z) st' fb,
    checkAnswer (H := sample_engine) saddle_state (show_Z gx) (show_Z gy) = Graded st' fb [] /\
    allCorrect fb = true.
Proof.
  assert (Hg : generated (H := sample_numbers) saddle (func saddle_question))
    by (constructor; unfold within; lia).
  assert (Hx : (-3 <= px (point saddle_question) <= 3)%Z) by (simpl; lia).
  assert (Hy : (-3 <= py (point saddle_question) <= 3)%Z) by (simpl; lia).
  split; [reflexivity |]. split; [exact Hg |]. split; [exact Hx |]. split; [exact Hy |].
  destruct (whole_number_answers_are_accepted (H := sample_engine) saddle_state saddle_question
              eq_refl (or_intror Hg) Hx Hy)
    as (gx & gy & _ & _ & st' & fb & Hc & _ & _ & Hall & _).
  exists gx, gy, st', fb. split; assumption.
Defined.

Lemma sinusoidal_solution_is_accepted_when_finite_witness :
  currentQuestion sinusoidal_state = Some sinusoidal_question /\
  generated (H := sample_numbers) sinusoidal (func sinusoidal_question) /\
  (-3 <= px (point sinusoidal_question) <= 3)%Z /\
  (-3 <= py (point sinusoidal_question) <= 3)%Z /\
  evaluateExpression (H := sample_engine) "2*cos(x)" 1 2
  = Some (VNum (PrimFloat.mul 2 (series_cos 1)), []).
Proof.
  assert (Hg : generated (H := sample_numbers) sinusoidal (func sinusoidal_question))
    by (constructor; unfold within, nonzero_within; lia).
  assert (Hx : (-3 <= px (point sinusoidal_question) <= 3)%Z) by (simpl; lia).
  assert (Hy : (-3 <= py (point sinusoidal_question) <= 3)%Z) by (simpl; lia).
  split; [reflexivity |]. split; [exact Hg |]. split; [exact Hx |]. split; [exact Hy |].
  exact (proj1 (sinusoidal_solution_is_accepted_when_finite (H := sample_engine)
                  sinusoidal_state sinusoidal_question eq_refl Hg Hx Hy)).
Defined.

(** ** The function as the question and the solution show it *)

Section Texts.
Context `{MathEngine}.

Lemma quadratic_texts_checked :
  for_all5 from_minus3_to_3 from_minus3_to_3 from_minus3_to_3 from_minus2_to_2 from_minus2_to_2
    (fun a b c d e =>
       (a =? 0)%Z || (b =? 0)%Z || (c =? 0)%Z || (d =? 0)%Z || (e =? 0)%Z
       || same_function_shown quadratic (quadratic_instance a b c d e))
  = true.
Proof. vm_compute. reflexivity. Qed.

Lemma other_texts_checked :
  for_all3 from_1_to_3 from_1_to_3 from_minus2_to_2
    (fun a b c =>
       (c =? 0)%Z
       || (same_function_shown exponential (exponential_instance a b c)
           && same_function_shown sinusoidal (sinusoidal_instance a b c)
           && same_function_shown saddle (saddle_instance a b)))
  = true.
Proof. vm_compute. reflexivity. Qed.

Lemma generated_same_function_shown (key : FunctionKey) (f : FunctionInstance float) :
  generated key f -> same_function_shown key f = true.
Proof.
  intros Hg. destruct Hg as [a b c d e Ha Hb Hc Hd He | a c d Ha Hc Hd
                            | a b c Ha Hb Hc | a b Ha Hb].
  - pose proof (for_all5_spec _ _ _ _ _ _ quadratic_texts_checked a b c d e
                  (nonzero_within_in_3 _ Ha) (nonzero_within_in_3 _ Hb)
                  (nonzero_within_in_3 _ Hc) (nonzero_within_in_2 _ Hd)
                  (nonzero_within_in_2 _ He)) as Hall.
    cbv beta in Hall.
    destruct Ha as [_ Ha], Hb as [_ Hb], Hc as [_ Hc], Hd as [_ Hd], He as [_ He].
    apply Z.eqb_neq in Ha, Hb, Hc, Hd, He. rewrite Ha, Hb, Hc, Hd, He in Hall.
    exact Hall.
  - pose proof (for_all3_spec _ _ _ _ other_texts_checked a c d
                  (in_from_1_to_3 _ Ha) (in_from_1_to_3 _ Hc)
                  (nonzero_within_in_2 _ Hd)) as Hall.
    cbv beta in Hall. destruct Hd as [_ Hd]. apply Z.eqb_neq in Hd. rewrite Hd in Hall.
    cbn [orb] in Hall. apply andb_true_iff in Hall. destruct Hall as [Hall _].
    apply andb_true_iff in Hall. exact (proj1 Hall).
  - pose proof (for_all3_spec _ _ _ _ other_texts_checked a b c
                  (in_from_1_to_3 _ Ha) (in_from_1_to_3 _ Hb)
                  (nonzero_within_in_2 _ Hc)) as Hall.
    cbv beta in Hall. destruct Hc as [_ Hc]. apply Z.eqb_neq in Hc. rewrite Hc in Hall.
    cbn [orb] in Hall. apply andb_true_iff in Hall. destruct Hall as [Hall _].
    apply andb_true_iff in Hall. exact (proj2 Hall).
  - assert (Hc : In 1%Z from_minus2_to_2) by (apply in_from_minus2_to_2; lia).
    pose proof (for_all3_spec _ _ _ _ other_texts_checked a b 1%Z
                  (in_from_1_to_3 _ Ha) (in_from_1_to_3 _ Hb) Hc) as Hall.
    cbv beta in Hall. cbn [Z.eqb orb] in Hall.
    apply andb_true_iff in Hall. exact (proj2 Hall).
Qed.

(** X15.  The question and the step-by-step solution show the same
    function: for every instance of the catalog, the text of the question is
    ["Given "], the function line of the solution, an empty line and the
    point; and no placeholder is left in that line.  Both replacements, the
    first-occurrence one of [generateNewQuestion] and the pattern one of
    [displayFeedback] that keeps the placeholder of a coefficient 0, give
    the same text on what [generate] returns. *)
Theorem question_and_solution_show_the_same_function
        (key : FunctionKey) (f : FunctionInstance float) (p : Point) :
  generated key f ->
  questionText (FUNCTIONS key) f p
  = ("Given " ++ solutionFunctionLine (FUNCTIONS key) f
     ++ String line_feed (String line_feed
          ("Compute ∇f(" ++ show_Z (px p) ++ ", " ++ show_Z (py p) ++ ")")))%string /\
  occurs "{" (solutionFunctionLine (FUNCTIONS key) f) = false.
Proof.
  intros Hg. apply generated_same_function_shown in Hg.
  unfold same_function_shown in Hg. apply andb_true_iff in Hg. destruct Hg as [Heq Hno].
  apply String.eqb_eq in Heq. apply negb_true_iff in Hno.
  split; [| exact Hno].
  unfold questionText. rewrite Heq. apply append_assoc.
Qed.

End Texts.

Lemma question_and_solution_show_the_same_function_witness :
  generated (H := sample_numbers) saddle (func saddle_question) /\
  questionText (FUNCTIONS (H := sample_numbers) saddle) (func saddle_question)
               (point saddle_question)
  = String.append "Given f(x,y) = 2x² - 1y²"
      (String line_feed (String line_feed "Compute ∇f(1, -1)")) /\
  solutionFunctionLine (FUNCTIONS (H := sample_numbers) saddle) (func saddle_question)
  = "f(x,y) = 2x² - 1y²"%string.
Proof.
  assert (Hg : generated (H := sample_numbers) saddle (func saddle_question))
    by (constructor; unfold within; lia).
  split; [exact Hg |].
  destruct (question_and_solution_show_the_same_function (H := sample_engine) saddle
              (func saddle_question) (point saddle_question) Hg) as [Hq _].
  split; [exact (eq_trans Hq eq_refl) | reflexivity].
Defined.

(** ** [compareAnswers] on one text *)

Section CompareFacts.
Context `{MathEngine}.

(** X16.  [compareAnswers] given the same text twice evaluates it twice at
    x = 1, y = 1, so that what is logged is logged twice, and answers true
    exactly when the value is a finite number: a text whose value is [NaN]
    or infinite does not even match itself.  The tolerance is any positive
    one, or the default. *)
Theorem compareAnswers_matches_itself_when_finite
        (expr : string) (tolerance : option float) (v : value) (log : list js_error) :
  (forall t, tolerance = Some t -> PrimFloat.ltb 0 t = true) ->
  evaluateExpression expr 1 1 = Some (v, log) ->
  exists verdict,
    compareAnswers expr expr tolerance = Some (verdict, log ++ log) /\
    (verdict = true <-> ~ not_finite (ToNumber v)).
Proof.
  intros Htol Hv. unfold compareAnswers. rewrite Hv.
  set (t := match tolerance with Some t => t | None => default_tolerance end).
  assert (Ht : PrimFloat.ltb 0 t = true).
  { unfold t. destruct tolerance as [t' |]; [now apply Htol | reflexivity]. }
  rewrite orb_diag. destruct (isNaN v) eqn:Hnan.
  - exists false. split; [reflexivity |]. split; [discriminate |].
    intros Hfin. exfalso. apply Hfin. left. now apply isNaN_true.
  - eexists. split; [reflexivity |]. now apply own_value_is_close.
Qed.

End CompareFacts.

Lemma compareAnswers_matches_itself_when_finite_witness :
  (forall t, @None float = Some t -> PrimFloat.ltb 0 t = true) /\
  evaluateExpression (H := sample_engine) "1/(x-1)" 1 1 = Some (VNum infinity, []) /\
  compareAnswers (H := sample_engine) "1/(x-1)" "1/(x-1)" None = Some (false, []).
Proof.
  assert (Htol : forall t, @None float = Some t -> PrimFloat.ltb 0 t = true)
    by (intros t Ht; discriminate Ht).
  split; [exact Htol |]. split; [reflexivity |].
  destruct (compareAnswers_matches_itself_when_finite (H := sample_engine)
              "1/(x-1)" None (VNum infinity) [] Htol eq_refl) as (verdict & Hc & Hv).
  rewrite Hc. destruct verdict; [| reflexivity].
  exfalso. apply (proj1 Hv eq_refl). exact infinity_not_finite.
Defined.
